(** * Adaptive multi-vertex finder (Acts): shallow embedding and properties

    Source: Core/include/Acts/Vertexing/AdaptiveMultiVertexFinder.ipp.

    Conventions of the embedding
    - [double] is IEEE-754 binary64, Rocq's primitive [float]; comparisons are
      the boolean primitives ([a > b] in the source is [b <? a]).
    - Pointers ([const InputTrack_t*], [Vertex<InputTrack_t>*]) are addresses
      in [N]; vertices owned through [std::unique_ptr] live in a heap
      [gmap VertexPtr Vertex].
    - A call either returns, returns an error code through [Result<T>], or is
      cut short by a C++ exception or a fault; this is the [Outcome] monad.
    - The collaborators (seed finder, multi-vertex fitter, impact-parameter
      estimator) are fields of the configuration, as in the source; library
      code outside the file (Eigen products, [safeInverse], [std::pow], the
      allocator, the methods of the fitter state) is gathered in [Externals]. *)

From Stdlib Require Import ZArith Floats Lia List Bool.
From stdpp Require Import base option list gmap.

Local Open Scope Z_scope.

(** ** Outcomes *)

(** [std::error_code] values travelling through [Result<T>]. *)
Inductive error_code :=
  | EmptyInput
  | CollaboratorError (code : Z).

(** What can cut a call short without a [Result]. *)
Inductive fault :=
  | out_of_range          (* std::map::at on a missing key *)
  | bad_optional_access   (* std::optional::value on an empty optional *)
  | empty_vector          (* std::vector::back or pop_back on an empty vector *)
  | fuel_exhausted.       (* artefact of the embedding, see [find_fuel_enough] *)

Inductive Outcome (A : Type) :=
  | Ok (a : A)
  | Failure (e : error_code)
  | Fault (x : fault).
Arguments Ok {A} a.
Arguments Failure {A} e.
Arguments Fault {A} x.

Global Instance Outcome_ret : MRet Outcome := fun A a => Ok a.
Global Instance Outcome_bind : MBind Outcome := fun A B f m =>
  match m with
  | Ok a => f a
  | Failure e => Failure e
  | Fault x => Fault x
  end.

(** ** Numbers, vectors and matrices *)

Abbreviation double := float (only parsing).

(** [std::numeric_limits<double>::max()] *)
Definition DBL_MAX : double := 0x1.fffffffffffffp1023%float.

(** [a > b] of the source *)
Definition gtb (a b : double) : bool := PrimFloat.ltb b a.

Record Vector3 := mkVector3 { v3x : double; v3y : double; v3z : double }.
Record Vector4 := mkVector4 { v4x : double; v4y : double; v4z : double; v4t : double }.
Record SquareMatrix3 := mkSquareMatrix3 { m3r0 : Vector3; m3r1 : Vector3; m3r2 : Vector3 }.
Record SquareMatrix4 :=
  mkSquareMatrix4 { m4r0 : Vector4; m4r1 : Vector4; m4r2 : Vector4; m4r3 : Vector4 }.

Definition vec3_zip (f : double -> double -> double) (a b : Vector3) : Vector3 :=
  mkVector3 (f (v3x a) (v3x b)) (f (v3y a) (v3y b)) (f (v3z a) (v3z b)).
Definition vec4_zip (f : double -> double -> double) (a b : Vector4) : Vector4 :=
  mkVector4 (f (v4x a) (v4x b)) (f (v4y a) (v4y b)) (f (v4z a) (v4z b)) (f (v4t a) (v4t b)).

Definition vec3_sub := vec3_zip PrimFloat.sub.
Definition vec4_sub := vec4_zip PrimFloat.sub.
Definition mat3_add (a b : SquareMatrix3) : SquareMatrix3 :=
  mkSquareMatrix3 (vec3_zip PrimFloat.add (m3r0 a) (m3r0 b))
                  (vec3_zip PrimFloat.add (m3r1 a) (m3r1 b))
                  (vec3_zip PrimFloat.add (m3r2 a) (m3r2 b)).
Definition mat4_add (a b : SquareMatrix4) : SquareMatrix4 :=
  mkSquareMatrix4 (vec4_zip PrimFloat.add (m4r0 a) (m4r0 b))
                  (vec4_zip PrimFloat.add (m4r1 a) (m4r1 b))
                  (vec4_zip PrimFloat.add (m4r2 a) (m4r2 b))
                  (vec4_zip PrimFloat.add (m4r3 a) (m4r3 b)).

(** [v.head<3>()] and [m.topLeftCorner<3, 3>()] *)
Definition head3 (v : Vector4) : Vector3 := mkVector3 (v4x v) (v4y v) (v4z v).
Definition topLeftCorner3 (m : SquareMatrix4) : SquareMatrix3 :=
  mkSquareMatrix3 (head3 (m4r0 m)) (head3 (m4r1 m)) (head3 (m4r2 m)).

(** [v[eZ]] and [m(eZ, eZ)], with [eZ = 2] *)
Definition vec4_eZ (v : Vector4) : double := v4z v.
Definition mat4_eZ_eZ (m : SquareMatrix4) : double := v4z (m4r2 m).

Definition Vector4_Zero : Vector4 := mkVector4 0 0 0 0.
Definition SquareMatrix4_Zero : SquareMatrix4 :=
  mkSquareMatrix4 Vector4_Zero Vector4_Zero Vector4_Zero Vector4_Zero.

(** [SquareMatrix4::Identity() * c]: every coefficient of the identity is
    multiplied by [c]. *)
Definition SquareMatrix4_Identity_times (c : double) : SquareMatrix4 :=
  let o := (1 * c)%float in
  let z := (0 * c)%float in
  mkSquareMatrix4 (mkVector4 o z z z) (mkVector4 z o z z)
                  (mkVector4 z z o z) (mkVector4 z z z o).

(** ** Data model *)

(** [const InputTrack_t*] and [Vertex<InputTrack_t>*]: addresses. *)
Abbreviation InputTrack := N (only parsing).
Abbreviation VertexPtr := N (only parsing).
Definition nullptr : N := 0%N.

(** [std::find_if(seedTracks.begin(), seedTracks.end(),
                  [&trk](auto seedTrk) { return trk == seedTrk; })]:
    the position of the first occurrence, [None] for [end()]. *)
Definition find_if_track (trk : InputTrack) (seedTracks : list InputTrack) : option nat :=
  fst <$> list_find (fun seedTrk => trk = seedTrk) seedTracks.

Section Finder.

(** Types the finder only passes along. *)
Context {BoundTrackParameters GeometryContext MagneticFieldContext : Type}.
Context {SeedFinderState FitterInternals : Type}.

(** Modelled from the spec: the per-(track, vertex) record of
    Acts/Vertexing/TrackAtVertex.hpp, which is not part of the sources at
    hand; the fields are those the finder reads and the spec lists. *)
Record TrackAtVertex := mkTrackAtVertex {
  fittedParams : BoundTrackParameters;
  originalParams : InputTrack;
  chi2Track : double;
  vertexCompatibility : double;
  trackWeight : double;
  isLinearized : bool }.

Definition TrackAtVertex_setLinearized (b : bool) (t : TrackAtVertex) : TrackAtVertex :=
  mkTrackAtVertex (fittedParams t) (originalParams t) (chi2Track t)
                  (vertexCompatibility t) (trackWeight t) b.

(** Modelled from the spec: Acts/Vertexing/Vertex.hpp (4-position,
    4x4 covariance, fit quality, attached tracks). *)
Record Vertex := mkVertex {
  fullPosition : Vector4;
  fullCovariance : SquareMatrix4;
  fitQuality : double * double;
  tracksAtVertex : list TrackAtVertex }.

Definition Vertex_default : Vertex :=
  mkVertex Vector4_Zero SquareMatrix4_Zero (0%float, 0%float) [].

Definition setFullPosition (p : Vector4) (v : Vertex) : Vertex :=
  mkVertex p (fullCovariance v) (fitQuality v) (tracksAtVertex v).
Definition setFullCovariance (c : SquareMatrix4) (v : Vertex) : Vertex :=
  mkVertex (fullPosition v) c (fitQuality v) (tracksAtVertex v).
Definition setFitQuality (q : double * double) (v : Vertex) : Vertex :=
  mkVertex (fullPosition v) (fullCovariance v) q (tracksAtVertex v).
Definition setTracksAtVertex (l : list TrackAtVertex) (v : Vertex) : Vertex :=
  mkVertex (fullPosition v) (fullCovariance v) (fitQuality v) l.

(** [vtx.position()[eZ]] *)
Definition position_z (v : Vertex) : double := vec4_eZ (fullPosition v).

(** Modelled from the spec: [VertexInfo] of the multi-vertex fitter
    (constraint, seed position, links to the tracks of the vertex). *)
Record VertexInfo := mkVertexInfo {
  info_constraint : Vertex;
  seedPosition : Vector4;
  trackLinks : list InputTrack }.

(** [VertexInfo()] and [VertexInfo(constraint, pos)] *)
Definition VertexInfo_default : VertexInfo :=
  mkVertexInfo Vertex_default Vector4_Zero [].
Definition VertexInfo_new (c : Vertex) (pos : Vector4) : VertexInfo :=
  mkVertexInfo c pos [].

(** Modelled from the spec: the state shared with the multi-vertex fitter. *)
Record FitterState := mkFitterState {
  vertexCollection : list VertexPtr;
  vtxInfoMap : gmap VertexPtr VertexInfo;
  trackToVerticesMultiMap : list (InputTrack * VertexPtr);
  tracksAtVerticesMap : gmap (InputTrack * VertexPtr) TrackAtVertex;
  fitterInternals : FitterInternals }.

Definition set_vtxInfoMap (m : gmap VertexPtr VertexInfo) (fs : FitterState) :=
  mkFitterState (vertexCollection fs) m (trackToVerticesMultiMap fs)
                (tracksAtVerticesMap fs) (fitterInternals fs).
Definition set_tracksAtVerticesMap
    (m : gmap (InputTrack * VertexPtr) TrackAtVertex) (fs : FitterState) :=
  mkFitterState (vertexCollection fs) (vtxInfoMap fs) (trackToVerticesMultiMap fs)
                m (fitterInternals fs).

(** [fitterState.vtxInfoMap[&vtx]]: [operator[]] of [std::map] inserts a
    default-constructed value when the key is missing. *)
Definition vtxInfoMap_subscript (fs : FitterState) (vtx : VertexPtr)
    : VertexInfo * FitterState :=
  match vtxInfoMap fs !! vtx with
  | Some info => (info, fs)
  | None => (VertexInfo_default,
             set_vtxInfoMap (<[vtx := VertexInfo_default]> (vtxInfoMap fs)) fs)
  end.

(** [fitterState.tracksAtVerticesMap.at(std::make_pair(trk, &vtx))] *)
Definition tracksAtVerticesMap_at (fs : FitterState) (trk : InputTrack) (vtx : VertexPtr)
    : Outcome TrackAtVertex :=
  match tracksAtVerticesMap fs !! (trk, vtx) with
  | Some t => Ok t
  | None => Fault out_of_range
  end.

(** The vertices owned by [allVertices]; reading an address that holds no
    vertex does not occur in [find] and reads as a default vertex. *)
Definition deref (heap : gmap VertexPtr Vertex) (p : VertexPtr) : Vertex :=
  default Vertex_default (heap !! p).

Record VertexingOptions := mkVertexingOptions {
  constraint : Vertex;
  useConstraintInFit : bool;
  geoContext : GeometryContext;
  magFieldContext : MagneticFieldContext }.

Definition set_constraint (c : Vertex) (o : VertexingOptions) : VertexingOptions :=
  mkVertexingOptions c (useConstraintInFit o) (geoContext o) (magFieldContext o).

(** Modelled from the spec: what the impact-parameter estimator returns;
    the time entries are [std::optional]. *)
Record ImpactParametersAndSigma := mkImpactParametersAndSigma {
  d0 : double;
  z0 : double;
  sigmaD0 : double;
  sigmaZ0 : double;
  deltaT : option double;
  sigmaDeltaT : option double }.

(** [std::optional::value()] *)
Definition optional_value {A} (o : option A) : Outcome A :=
  match o with Some a => Ok a | None => Fault bad_optional_access end.

(** The configuration [m_cfg]: collaborators and options. A collaborator
    that takes the fitter state by reference also reaches the vertices it
    points to, so it maps state and heap to state and heap. *)
Record Config := mkConfig {
  vertexFitter_addVtxToFit :
    FitterState -> gmap VertexPtr Vertex -> VertexPtr -> VertexingOptions ->
    Outcome (FitterState * gmap VertexPtr Vertex);
  vertexFitter_fit :
    FitterState -> gmap VertexPtr Vertex -> VertexingOptions ->
    Outcome (FitterState * gmap VertexPtr Vertex);
  seedFinder_find :
    list InputTrack -> VertexingOptions -> SeedFinderState ->
    Outcome (list Vertex * SeedFinderState);
  ipEstimator_getImpactParameters :
    BoundTrackParameters -> Vertex -> GeometryContext -> MagneticFieldContext ->
    bool -> Outcome ImpactParametersAndSigma;
  maxIterations : Z;
  addSingleTrackVertices : bool;
  doRealMultiVertex : bool;
  useSeedConstraint : bool;
  useVertexCovForIPEstimation : bool;
  useTime : bool;
  useFastCompatibility : bool;
  do3dSplitting : bool;
  tracksMaxZinterval : double;
  tracksMaxSignificance : double;
  maxVertexChi2 : double;
  minWeight : double;
  maximumVertexContamination : double;
  maxMergeVertexSignificance : double;
  looseConstrValue : double;
  defaultConstrFitQuality : double * double }.

(** The same configuration with another [maxIterations]. *)
Definition with_maxIterations (n : Z) (c : Config) : Config :=
  mkConfig (vertexFitter_addVtxToFit c) (vertexFitter_fit c) (seedFinder_find c)
           (ipEstimator_getImpactParameters c) n
           (addSingleTrackVertices c) (doRealMultiVertex c) (useSeedConstraint c)
           (useVertexCovForIPEstimation c) (useTime c) (useFastCompatibility c)
           (do3dSplitting c) (tracksMaxZinterval c) (tracksMaxSignificance c)
           (maxVertexChi2 c) (minWeight c) (maximumVertexContamination c)
           (maxMergeVertexSignificance c) (looseConstrValue c)
           (defaultConstrFitQuality c).

(** Code the finder calls that lies outside the file. *)
Record Externals := mkExternals {
  (* the member [m_extractParameters] and [BoundTrackParameters::position] *)
  m_extractParameters : InputTrack -> BoundTrackParameters;
  params_position : BoundTrackParameters -> GeometryContext -> Vector3;
  (* constructor [TrackAtVertex(params, trk)] *)
  TrackAtVertex_new : BoundTrackParameters -> InputTrack -> TrackAtVertex;
  (* [std::pow] *)
  std_pow : double -> double -> double;
  (* [safeInverse] of AlgebraHelpers.hpp and Eigen's products *)
  safeInverse4 : SquareMatrix4 -> option SquareMatrix4;
  safeInverse3 : SquareMatrix3 -> option SquareMatrix3;
  mat4_mul_vec : SquareMatrix4 -> Vector4 -> Vector4;
  mat3_mul_vec : SquareMatrix3 -> Vector3 -> Vector3;
  vec4_dot : Vector4 -> Vector4 -> double;
  vec3_dot : Vector3 -> Vector3 -> double;
  (* the address [std::make_unique] returns, given the live vertices *)
  allocate : gmap VertexPtr Vertex -> VertexPtr;
  (* constructors of the two states *)
  FitterInternals_new : MagneticFieldContext -> FitterInternals;
  SeedFinderState_new : SeedFinderState;
  (* [NeedsRemovedTracks]: the assignment to [tracksToRemove] when the
     state of the seed finder has that member *)
  set_tracksToRemove : option (SeedFinderState -> list InputTrack -> SeedFinderState);
  (* methods of the fitter state *)
  addVertexToMultiMap : FitterState -> VertexPtr -> FitterState;
  removeVertexFromMultiMap : FitterState -> VertexPtr -> FitterState;
  removeVertexFromCollection : FitterState -> VertexPtr -> Outcome FitterState }.

(** ** The finder *)

Section Methods.

Variable ext : Externals.
Variable m_cfg : Config.

(** *** setConstraintAfterSeeding (source lines 172-192)

    Returns the updated [currentConstraint] and [seedVertex]. *)
Definition setConstraintAfterSeeding
    (currentConstraint : Vertex) (useVertexConstraintInFit : bool)
    (seedVertex : Vertex) : Vertex * Vertex :=
  if useVertexConstraintInFit then
    if negb (useSeedConstraint m_cfg) then
      (currentConstraint,
       setFullCovariance (fullCovariance currentConstraint) seedVertex)
    else
      (setFullCovariance (fullCovariance seedVertex)
         (setFullPosition (fullPosition seedVertex) currentConstraint),
       seedVertex)
  else
    (setFitQuality (defaultConstrFitQuality m_cfg)
       (setFullCovariance (SquareMatrix4_Identity_times (looseConstrValue m_cfg))
          (setFullPosition (fullPosition seedVertex) currentConstraint)),
     seedVertex).

(** *** doSeeding (source lines 141-170)

    Returns the seed vertex, the updated constraint and the state of the
    seed finder. *)
Definition doSeeding
    (trackVector : list InputTrack) (currentConstraint : Vertex)
    (vertexingOptions : VertexingOptions) (seedFinderState : SeedFinderState)
    (removedSeedTracks : list InputTrack)
    : Outcome (Vertex * Vertex * SeedFinderState) :=
  let seedOptions := set_constraint currentConstraint vertexingOptions in
  let seedFinderState :=
    match set_tracksToRemove ext with
    | Some assign => assign seedFinderState removedSeedTracks
    | None => seedFinderState
    end in
  '(seeds, seedFinderState) ←
     seedFinder_find m_cfg trackVector seedOptions seedFinderState;
  match last seeds with
  | None => Fault empty_vector
  | Some seedVertex =>
      let '(currentConstraint, seedVertex) :=
        setConstraintAfterSeeding currentConstraint
          (useConstraintInFit seedOptions) seedVertex in
      Ok (seedVertex, currentConstraint, seedFinderState)
  end.

(** *** getIPSignificance (source lines 194-233) *)
Definition getIPSignificance
    (track : InputTrack) (vtx : Vertex) (vertexingOptions : VertexingOptions)
    : Outcome double :=
  let newVtx :=
    if negb (useVertexCovForIPEstimation m_cfg)
    then setFullCovariance SquareMatrix4_Zero vtx else vtx in
  ipas ← ipEstimator_getImpactParameters m_cfg
            (m_extractParameters ext track) newVtx
            (geoContext vertexingOptions) (magFieldContext vertexingOptions)
            (useTime m_cfg);
  chi2Time ←
    (if useTime m_cfg then
       sdt ← optional_value (sigmaDeltaT ipas);
       if gtb sdt 0 then
         dt ← optional_value (deltaT ipas);
         Ok (std_pow ext (dt / sdt) 2)%float
       else Ok 0%float
     else Ok 0%float);
  let significance :=
    if gtb (sigmaD0 ipas) 0 && gtb (sigmaZ0 ipas) 0 then
      PrimFloat.sqrt (std_pow ext (d0 ipas / sigmaD0 ipas) 2
                      + std_pow ext (z0 ipas / sigmaZ0 ipas) 2 + chi2Time)%float
    else 0%float in
  Ok significance.

(** *** addCompatibleTracksToVertex (source lines 235-265)

    [vtx] is read through the heap; the fitter state is updated. *)
Fixpoint addCompatibleTracksToVertex
    (tracks : list InputTrack) (vtx : VertexPtr) (heap : gmap VertexPtr Vertex)
    (fitterState : FitterState) (vertexingOptions : VertexingOptions)
    : Outcome FitterState :=
  match tracks with
  | [] => Ok fitterState
  | trk :: tracks' =>
      let params := m_extractParameters ext trk in
      let pos := params_position ext params (geoContext vertexingOptions) in
      if (tracksMaxZinterval m_cfg
            <? PrimFloat.abs (v3z pos - position_z (deref heap vtx)))%float then
        addCompatibleTracksToVertex tracks' vtx heap fitterState vertexingOptions
      else
        ipSig ← getIPSignificance trk (deref heap vtx) vertexingOptions;
        if (ipSig <? tracksMaxSignificance m_cfg)%float then
          (* emplace: no effect when the key is present *)
          let fitterState :=
            match tracksAtVerticesMap fitterState !! (trk, vtx) with
            | Some _ => fitterState
            | None =>
                set_tracksAtVerticesMap
                  (<[(trk, vtx) := TrackAtVertex_new ext params trk]>
                     (tracksAtVerticesMap fitterState)) fitterState
            end in
          let '(info, fitterState) := vtxInfoMap_subscript fitterState vtx in
          let info :=
            mkVertexInfo (info_constraint info) (seedPosition info)
                         (trackLinks info ++ [trk]) in
          let fitterState :=
            set_vtxInfoMap (<[vtx := info]> (vtxInfoMap fitterState)) fitterState in
          addCompatibleTracksToVertex tracks' vtx heap fitterState vertexingOptions
        else
          addCompatibleTracksToVertex tracks' vtx heap fitterState vertexingOptions
  end.

(** The search for the nearest seed track in [canRecoverFromNoCompatibleTracks]
    (source lines 283-295): [(smallestDeltaZ, newZ, nearTrackFound)]. *)
Fixpoint nearestTrackZ
    (seedTracks : list InputTrack) (vtxZ : double) (geoCtx : GeometryContext)
    (acc : double * double * bool) : double * double * bool :=
  match seedTracks with
  | [] => acc
  | trk :: seedTracks' =>
      let '(smallestDeltaZ, newZ, nearTrackFound) := acc in
      let pos := params_position ext (m_extractParameters ext trk) geoCtx in
      let zDistance := PrimFloat.abs (v3z pos - vtxZ)%float in
      if (zDistance <? smallestDeltaZ)%float
      then nearestTrackZ seedTracks' vtxZ geoCtx (zDistance, v3z pos, true)
      else nearestTrackZ seedTracks' vtxZ geoCtx acc
  end.

(** *** canRecoverFromNoCompatibleTracks (source lines 267-324) *)
Definition canRecoverFromNoCompatibleTracks
    (allTracks seedTracks : list InputTrack) (vtx : VertexPtr)
    (heap : gmap VertexPtr Vertex) (currentConstraint : Vertex)
    (fitterState : FitterState) (vertexingOptions : VertexingOptions)
    : Outcome (bool * FitterState * gmap VertexPtr Vertex) :=
  let '(info, fitterState) := vtxInfoMap_subscript fitterState vtx in
  match trackLinks info with
  | [] =>
      let '(_, newZ, nearTrackFound) :=
        nearestTrackZ seedTracks (position_z (deref heap vtx))
          (geoContext vertexingOptions) (DBL_MAX, 0%float, false) in
      if nearTrackFound then
        let heap :=
          <[vtx := setFullPosition (mkVector4 0 0 newZ 0) (deref heap vtx)]> heap in
        let fitterState :=
          set_vtxInfoMap
            (<[vtx := VertexInfo_new currentConstraint
                        (fullPosition (deref heap vtx))]> (vtxInfoMap fitterState))
            fitterState in
        fitterState ←
          addCompatibleTracksToVertex allTracks vtx heap fitterState vertexingOptions;
        let '(info, fitterState) := vtxInfoMap_subscript fitterState vtx in
        match trackLinks info with
        | [] => Ok (false, fitterState, heap)
        | _ :: _ => Ok (true, fitterState, heap)
        end
      else Ok (false, fitterState, heap)
  | _ :: _ => Ok (true, fitterState, heap)
  end.

(** *** canPrepareVertexForFit (source lines 326-356) *)
Definition canPrepareVertexForFit
    (allTracks seedTracks : list InputTrack) (vtx : VertexPtr)
    (heap : gmap VertexPtr Vertex) (currentConstraint : Vertex)
    (fitterState : FitterState) (vertexingOptions : VertexingOptions)
    : Outcome (bool * FitterState * gmap VertexPtr Vertex) :=
  let fitterState :=
    set_vtxInfoMap
      (<[vtx := VertexInfo_new currentConstraint (fullPosition (deref heap vtx))]>
         (vtxInfoMap fitterState)) fitterState in
  fitterState ←
    addCompatibleTracksToVertex allTracks vtx heap fitterState vertexingOptions;
  canRecoverFromNoCompatibleTracks allTracks seedTracks vtx heap currentConstraint
    fitterState vertexingOptions.

(** The compatibility test written out in both
    [checkVertexAndCompatibleTracks] and
    [removeCompatibleTracksFromSeedTracks] (source lines 370-374, 408-412). *)
Definition isCompatibleTrack (trkAtVtx : TrackAtVertex) : bool :=
  ((vertexCompatibility trkAtVtx <? maxVertexChi2 m_cfg)%float
   && useFastCompatibility m_cfg)
  || (gtb (trackWeight trkAtVtx) (minWeight m_cfg)
      && (chi2Track trkAtVtx <? maxVertexChi2 m_cfg)%float
      && negb (useFastCompatibility m_cfg)).

(** *** checkVertexAndCompatibleTracks (source lines 358-397)

    The loop over the track links; leaving the loop through [break] returns
    at once. *)
Fixpoint checkVertexAndCompatibleTracks_loop
    (links : list InputTrack) (vtx : VertexPtr) (seedTracks : list InputTrack)
    (fitterState : FitterState) (useVertexConstraintInFit : bool)
    (nCompatibleTracks : Z) : Outcome (Z * bool) :=
  match links with
  | [] => Ok (nCompatibleTracks, false)
  | trk :: links' =>
      trkAtVtx ← tracksAtVerticesMap_at fitterState trk vtx;
      if isCompatibleTrack trkAtVtx then
        match find_if_track trk seedTracks with
        | Some _ =>
            let nCompatibleTracks := nCompatibleTracks + 1 in
            if addSingleTrackVertices m_cfg && useVertexConstraintInFit then
              Ok (nCompatibleTracks, true)
            else if 1 <? nCompatibleTracks then
              Ok (nCompatibleTracks, true)
            else
              checkVertexAndCompatibleTracks_loop links' vtx seedTracks
                fitterState useVertexConstraintInFit nCompatibleTracks
        | None =>
            checkVertexAndCompatibleTracks_loop links' vtx seedTracks
              fitterState useVertexConstraintInFit nCompatibleTracks
        end
      else
        checkVertexAndCompatibleTracks_loop links' vtx seedTracks
          fitterState useVertexConstraintInFit nCompatibleTracks
  end.

Definition checkVertexAndCompatibleTracks
    (vtx : VertexPtr) (seedTracks : list InputTrack) (fitterState : FitterState)
    (useVertexConstraintInFit : bool) : Outcome (Z * bool * FitterState) :=
  let '(info, fitterState) := vtxInfoMap_subscript fitterState vtx in
  '(nCompatibleTracks, isGoodVertex) ←
     checkVertexAndCompatibleTracks_loop (trackLinks info) vtx seedTracks
       fitterState useVertexConstraintInFit 0;
  Ok (nCompatibleTracks, isGoodVertex, fitterState).

(** *** removeCompatibleTracksFromSeedTracks (source lines 399-423) *)
Fixpoint removeCompatibleTracksFromSeedTracks_loop
    (links : list InputTrack) (vtx : VertexPtr) (seedTracks : list InputTrack)
    (fitterState : FitterState) (removedSeedTracks : list InputTrack)
    : Outcome (list InputTrack * list InputTrack) :=
  match links with
  | [] => Ok (seedTracks, removedSeedTracks)
  | trk :: links' =>
      trkAtVtx ← tracksAtVerticesMap_at fitterState trk vtx;
      if isCompatibleTrack trkAtVtx then
        match find_if_track trk seedTracks with
        | Some foundSeedIter =>
            removeCompatibleTracksFromSeedTracks_loop links' vtx
              (delete foundSeedIter seedTracks) fitterState
              (removedSeedTracks ++ [trk])
        | None =>
            removeCompatibleTracksFromSeedTracks_loop links' vtx seedTracks
              fitterState removedSeedTracks
        end
      else
        removeCompatibleTracksFromSeedTracks_loop links' vtx seedTracks
          fitterState removedSeedTracks
  end.

Definition removeCompatibleTracksFromSeedTracks
    (vtx : VertexPtr) (seedTracks : list InputTrack) (fitterState : FitterState)
    (removedSeedTracks : list InputTrack)
    : Outcome (list InputTrack * list InputTrack * FitterState) :=
  let '(info, fitterState) := vtxInfoMap_subscript fitterState vtx in
  '(seedTracks, removedSeedTracks) ←
     removeCompatibleTracksFromSeedTracks_loop (trackLinks info) vtx seedTracks
       fitterState removedSeedTracks;
  Ok (seedTracks, removedSeedTracks, fitterState).

(** *** removeTrackIfIncompatible (source lines 425-481)

    First loop: [(maxCompatibility, maxCompSeedIt, removedTrack)], the
    iterator being a position in [seedTracks] or [None] for [end()]. *)
Fixpoint maxCompatibilityTrack
    (links : list InputTrack) (vtx : VertexPtr) (seedTracks : list InputTrack)
    (fitterState : FitterState) (acc : double * option nat * InputTrack)
    : Outcome (double * option nat * InputTrack) :=
  match links with
  | [] => Ok acc
  | trk :: links' =>
      let '(maxCompatibility, maxCompSeedIt, removedTrack) := acc in
      trkAtVtx ← tracksAtVerticesMap_at fitterState trk vtx;
      let compatibility := vertexCompatibility trkAtVtx in
      if gtb compatibility maxCompatibility then
        match find_if_track trk seedTracks with
        | Some foundSeedIter =>
            maxCompatibilityTrack links' vtx seedTracks fitterState
              (compatibility, Some foundSeedIter, trk)
        | None => maxCompatibilityTrack links' vtx seedTracks fitterState acc
        end
      else maxCompatibilityTrack links' vtx seedTracks fitterState acc
  end.

(** Second loop, over [seedTracks[i]] for [i] from the position of the first
    element of [tracks]: [(smallestDeltaZ, smallestDzSeedIter, removedTrack)]. *)
Fixpoint closestTrackInZ
    (tracks : list InputTrack) (i : nat) (vtxZ : double) (geoCtx : GeometryContext)
    (acc : double * option nat * InputTrack) : double * option nat * InputTrack :=
  match tracks with
  | [] => acc
  | trk :: tracks' =>
      let '(smallestDeltaZ, smallestDzSeedIter, removedTrack) := acc in
      let pos := params_position ext (m_extractParameters ext trk) geoCtx in
      let zDistance := PrimFloat.abs (v3z pos - vtxZ)%float in
      if (zDistance <? smallestDeltaZ)%float
      then closestTrackInZ tracks' (S i) vtxZ geoCtx (zDistance, Some i, trk)
      else closestTrackInZ tracks' (S i) vtxZ geoCtx acc
  end.

(** Returns the flag, [seedTracks], [removedSeedTracks] and the fitter state. *)
Definition removeTrackIfIncompatible
    (vtx : VertexPtr) (heap : gmap VertexPtr Vertex) (seedTracks : list InputTrack)
    (fitterState : FitterState) (removedSeedTracks : list InputTrack)
    (geoCtx : GeometryContext)
    : Outcome (bool * list InputTrack * list InputTrack * FitterState) :=
  let '(info, fitterState) := vtxInfoMap_subscript fitterState vtx in
  '(_, maxCompSeedIt, removedTrack) ←
     maxCompatibilityTrack (trackLinks info) vtx seedTracks fitterState
       (0%float, None, nullptr);
  match maxCompSeedIt with
  | Some it =>
      Ok (true, delete it seedTracks, removedSeedTracks ++ [removedTrack],
          fitterState)
  | None =>
      let '(_, smallestDzSeedIter, removedTrack) :=
        closestTrackInZ seedTracks 0%nat (position_z (deref heap vtx)) geoCtx
          (DBL_MAX, None, removedTrack) in
      match smallestDzSeedIter with
      | Some it =>
          Ok (true, delete it seedTracks, removedSeedTracks ++ [removedTrack],
              fitterState)
      | None => Ok (false, seedTracks, removedSeedTracks, fitterState)
      end
  end.

(** *** isMergedVertex (source lines 512-565)

    The significance of one pair, [None] where the source skips the pair
    with [continue]. *)
Definition mergeSignificance
    (candidatePos : Vector4) (candidateCov : SquareMatrix4)
    (otherPos : Vector4) (otherCov : SquareMatrix4) : option double :=
  if negb (do3dSplitting m_cfg) then
    let deltaZPos := (vec4_eZ otherPos - vec4_eZ candidatePos)%float in
    let sumVarZ := (mat4_eZ_eZ otherCov + mat4_eZ_eZ candidateCov)%float in
    if (sumVarZ <=? 0)%float then None
    else Some (PrimFloat.abs deltaZPos / PrimFloat.sqrt sumVarZ)%float
  else if useTime m_cfg then
    let deltaPos := vec4_sub otherPos candidatePos in
    let sumCov := mat4_add candidateCov otherCov in
    match safeInverse4 ext sumCov with
    | None => None
    | Some sumCovInverse =>
        Some (PrimFloat.sqrt
                (vec4_dot ext deltaPos (mat4_mul_vec ext sumCovInverse deltaPos)))
    end
  else
    let deltaPos := vec3_sub (head3 otherPos) (head3 candidatePos) in
    let sumCov := mat3_add (topLeftCorner3 candidateCov) (topLeftCorner3 otherCov) in
    match safeInverse3 ext sumCov with
    | None => None
    | Some sumCovInverse =>
        Some (PrimFloat.sqrt
                (vec3_dot ext deltaPos (mat3_mul_vec ext sumCovInverse deltaPos)))
    end.

Fixpoint isMergedVertex
    (vtx : VertexPtr) (heap : gmap VertexPtr Vertex) (allVertices : list VertexPtr)
    : bool :=
  match allVertices with
  | [] => false
  | otherVtx :: allVertices' =>
      if decide (vtx = otherVtx) then isMergedVertex vtx heap allVertices'
      else
        match mergeSignificance
                (fullPosition (deref heap vtx)) (fullCovariance (deref heap vtx))
                (fullPosition (deref heap otherVtx))
                (fullCovariance (deref heap otherVtx)) with
        | None => isMergedVertex vtx heap allVertices'
        | Some significance =>
            if (significance <? maxMergeVertexSignificance m_cfg)%float then true
            else isMergedVertex vtx heap allVertices'
        end
  end.

(** *** keepNewVertex (source lines 483-510)

    The loop: [(contaminationNum, contaminationDeNom)]. *)
Fixpoint contaminationSums
    (links : list InputTrack) (vtx : VertexPtr) (fitterState : FitterState)
    (acc : double * double) : Outcome (double * double) :=
  match links with
  | [] => Ok acc
  | trk :: links' =>
      let '(contaminationNum, contaminationDeNom) := acc in
      trkAtVtx ← tracksAtVerticesMap_at fitterState trk vtx;
      let trackWeight := trackWeight trkAtVtx in
      contaminationSums links' vtx fitterState
        ((contaminationNum + trackWeight * (1 - trackWeight))%float,
         (contaminationDeNom + trackWeight * trackWeight)%float)
  end.

Definition keepNewVertex
    (vtx : VertexPtr) (heap : gmap VertexPtr Vertex) (allVertices : list VertexPtr)
    (fitterState : FitterState) : Outcome (bool * FitterState) :=
  let '(info, fitterState) := vtxInfoMap_subscript fitterState vtx in
  '(contaminationNum, contaminationDeNom) ←
     contaminationSums (trackLinks info) vtx fitterState (0%float, 0%float);
  let contamination :=
    if negb (contaminationDeNom =? 0)%float
    then (contaminationNum / contaminationDeNom)%float else 0%float in
  if gtb contamination (maximumVertexContamination m_cfg) then
    Ok (false, fitterState)
  else if isMergedVertex vtx heap allVertices then Ok (false, fitterState)
  else Ok (true, fitterState).

(** [pop_back] on a vector of raw pointers, and on the owning vector
    [allVertices], where the popped [unique_ptr] frees its vertex. *)
Definition pop_back {A} (v : list A) : Outcome (list A) :=
  match v with
  | [] => Fault empty_vector
  | _ :: _ => Ok (removelast v)
  end.

Definition unique_pop_back
    (allVertices : list VertexPtr) (heap : gmap VertexPtr Vertex)
    : Outcome (list VertexPtr * gmap VertexPtr Vertex) :=
  match last allVertices with
  | None => Fault empty_vector
  | Some p => Ok (removelast allVertices, delete p heap)
  end.

(** *** deleteLastVertex (source lines 567-609) *)
Definition deleteLastVertex
    (vtx : VertexPtr) (allVertices allVerticesPtr : list VertexPtr)
    (heap : gmap VertexPtr Vertex) (fitterState : FitterState)
    (vertexingOptions : VertexingOptions)
    : Outcome (list VertexPtr * list VertexPtr * gmap VertexPtr Vertex * FitterState) :=
  '(allVertices, heap) ← unique_pop_back allVertices heap;
  allVerticesPtr ← pop_back allVerticesPtr;
  let fitterState := removeVertexFromMultiMap ext fitterState vtx in
  fitterState ← removeVertexFromCollection ext fitterState vtx;
  let fitterState :=
    set_tracksAtVerticesMap
      (map_imap (fun (key : InputTrack * VertexPtr) entry =>
                   Some (if decide (key.2 = vtx)
                         then TrackAtVertex_setLinearized false entry
                         else entry))
                (tracksAtVerticesMap fitterState)) fitterState in
  match vertexCollection fitterState with
  | [] => Ok (allVertices, allVerticesPtr, heap, fitterState)
  | _ :: _ =>
      '(fitterState, heap) ← vertexFitter_fit m_cfg fitterState heap vertexingOptions;
      Ok (allVertices, allVerticesPtr, heap, fitterState)
  end.

(** *** getVertexOutputList (source lines 611-628) *)
Fixpoint tracksAtVertexOf
    (links : list InputTrack) (vtx : VertexPtr) (fitterState : FitterState)
    : Outcome (list TrackAtVertex) :=
  match links with
  | [] => Ok []
  | trk :: links' =>
      trkAtVtx ← tracksAtVerticesMap_at fitterState trk vtx;
      tracksAtVtx ← tracksAtVertexOf links' vtx fitterState;
      Ok (trkAtVtx :: tracksAtVtx)
  end.

Fixpoint getVertexOutputList
    (allVerticesPtr : list VertexPtr) (heap : gmap VertexPtr Vertex)
    (fitterState : FitterState) : Outcome (list Vertex) :=
  match allVerticesPtr with
  | [] => Ok []
  | vtx :: allVerticesPtr' =>
      let '(info, fitterState) := vtxInfoMap_subscript fitterState vtx in
      tracksAtVtx ← tracksAtVertexOf (trackLinks info) vtx fitterState;
      let outVtx := setTracksAtVertex tracksAtVtx (deref heap vtx) in
      let heap := <[vtx := outVtx]> heap in
      outputVec ← getVertexOutputList allVerticesPtr' heap fitterState;
      Ok (outVtx :: outputVec)
  end.

(** *** find (source lines 12-139)

    The local variables of [find] that live across iterations. *)
Record FinderState := mkFinderState {
  st_seedTracks : list InputTrack;
  st_removedSeedTracks : list InputTrack;
  st_allVertices : list VertexPtr;
  st_allVerticesPtr : list VertexPtr;
  st_fitterState : FitterState;
  st_seedFinderState : SeedFinderState;
  st_heap : gmap VertexPtr Vertex;
  st_iteration : Z }.

(** How an iteration of the [while] loop ends: through [break], or at the
    end of its body. *)
Inductive LoopStep :=
  | Break (st : FinderState)
  | Continue (st : FinderState).

(** The three [break]s pop the candidate off both vectors. *)
Definition breakLoop
    (seedTracks removedSeedTracks : list InputTrack)
    (allVertices allVerticesPtr : list VertexPtr)
    (fitterState : FitterState) (seedFinderState : SeedFinderState)
    (heap : gmap VertexPtr Vertex) (iteration : Z) : Outcome LoopStep :=
  '(allVertices, heap) ← unique_pop_back allVertices heap;
  allVerticesPtr ← pop_back allVerticesPtr;
  Ok (Break (mkFinderState seedTracks removedSeedTracks allVertices
               allVerticesPtr fitterState seedFinderState heap iteration)).

(** Source lines 120-135: the decision on the candidate and [iteration++]. *)
Definition keepOrDelete
    (vtxCandidate : VertexPtr) (isGoodVertex : bool)
    (vertexingOptions : VertexingOptions)
    (seedTracks removedSeedTracks : list InputTrack)
    (allVertices allVerticesPtr : list VertexPtr)
    (fitterState : FitterState) (seedFinderState : SeedFinderState)
    (heap : gmap VertexPtr Vertex) (iteration : Z) : Outcome LoopStep :=
  '(keepVertex, fitterState) ←
     (if isGoodVertex
      then keepNewVertex vtxCandidate heap allVerticesPtr fitterState
      else Ok (false, fitterState));
  '(allVertices, allVerticesPtr, heap, fitterState) ←
     (if negb keepVertex
      then deleteLastVertex vtxCandidate allVertices allVerticesPtr heap
             fitterState vertexingOptions
      else Ok (allVertices, allVerticesPtr, heap, fitterState));
  Ok (Continue (mkFinderState seedTracks removedSeedTracks allVertices
                  allVerticesPtr fitterState seedFinderState heap (iteration + 1))).

(** The body of the [while] loop (source lines 39-135). *)
Definition find_iteration
    (origTracks : list InputTrack) (vertexingOptions : VertexingOptions)
    (st : FinderState) : Outcome LoopStep :=
  let seedTracks := st_seedTracks st in
  let searchTracks :=
    if doRealMultiVertex m_cfg then origTracks else seedTracks in
  let currentConstraint := constraint vertexingOptions in
  '(seedVertex, currentConstraint, seedFinderState) ←
     doSeeding seedTracks currentConstraint vertexingOptions
       (st_seedFinderState st) (st_removedSeedTracks st);
  let vtxCandidate := allocate ext (st_heap st) in
  let heap := <[vtxCandidate := seedVertex]> (st_heap st) in
  let allVertices := st_allVertices st ++ [vtxCandidate] in
  let allVerticesPtr := st_allVerticesPtr st ++ [vtxCandidate] in
  if (position_z (deref heap vtxCandidate)
        =? position_z (constraint vertexingOptions))%float then
    breakLoop seedTracks (st_removedSeedTracks st) allVertices allVerticesPtr
      (st_fitterState st) seedFinderState heap (st_iteration st)
  else
    let removedSeedTracks := [] in
    '(prepResult, fitterState, heap) ←
       canPrepareVertexForFit searchTracks seedTracks vtxCandidate heap
         currentConstraint (st_fitterState st) vertexingOptions;
    if negb prepResult then
      breakLoop seedTracks removedSeedTracks allVertices allVerticesPtr
        fitterState seedFinderState heap (st_iteration st)
    else
      let fitterState := addVertexToMultiMap ext fitterState vtxCandidate in
      '(fitterState, heap) ←
         vertexFitter_addVtxToFit m_cfg fitterState heap vtxCandidate
           vertexingOptions;
      '(nCompatibleTracks, isGoodVertex, fitterState) ←
         checkVertexAndCompatibleTracks vtxCandidate seedTracks fitterState
           (useConstraintInFit vertexingOptions);
      if 0 <? nCompatibleTracks then
        '(seedTracks, removedSeedTracks, fitterState) ←
           removeCompatibleTracksFromSeedTracks vtxCandidate seedTracks
             fitterState removedSeedTracks;
        keepOrDelete vtxCandidate isGoodVertex vertexingOptions
          seedTracks removedSeedTracks allVertices allVerticesPtr
          fitterState seedFinderState heap (st_iteration st)
      else
        '(removedIncompatibleTrack, seedTracks, removedSeedTracks, fitterState) ←
           removeTrackIfIncompatible vtxCandidate heap seedTracks fitterState
             removedSeedTracks (geoContext vertexingOptions);
        if negb removedIncompatibleTrack then
          breakLoop seedTracks removedSeedTracks allVertices allVerticesPtr
            fitterState seedFinderState heap (st_iteration st)
        else
          keepOrDelete vtxCandidate isGoodVertex vertexingOptions
            seedTracks removedSeedTracks allVertices allVerticesPtr
            fitterState seedFinderState heap (st_iteration st)
  .

(** The condition of the [while] loop (source lines 36-38). *)
Definition loopCondition (st : FinderState) : bool :=
  let empty := match st_seedTracks st with [] => true | _ :: _ => false end in
  ((addSingleTrackVertices m_cfg && negb empty)
   || (negb (addSingleTrackVertices m_cfg) && negb empty))
  && (st_iteration st <? maxIterations m_cfg).

(** The [while] loop. [fuel] bounds the number of iterations of the
    embedding; [find] supplies [maxIterations], which is enough. *)
Fixpoint find_loop
    (fuel : nat) (origTracks : list InputTrack)
    (vertexingOptions : VertexingOptions) (st : FinderState)
    : Outcome FinderState :=
  if loopCondition st then
    match fuel with
    | O => Fault fuel_exhausted
    | S fuel' =>
        step ← find_iteration origTracks vertexingOptions st;
        match step with
        | Break st' => Ok st'
        | Continue st' => find_loop fuel' origTracks vertexingOptions st'
        end
    end
  else Ok st.

Definition initialState
    (allTracks : list InputTrack) (vertexingOptions : VertexingOptions)
    : FinderState :=
  mkFinderState allTracks [] [] []
    (mkFitterState [] ∅ [] ∅
       (FitterInternals_new ext (magFieldContext vertexingOptions)))
    (SeedFinderState_new ext) ∅ 0.

(** What [find] returns once the loop has stopped in state [st]. *)
Definition outputOf (st : FinderState) : Outcome (list Vertex) :=
  getVertexOutputList (st_allVerticesPtr st) (st_heap st) (st_fitterState st).

Definition find
    (allTracks : list InputTrack) (vertexingOptions : VertexingOptions)
    : Outcome (list Vertex) :=
  match allTracks with
  | [] => Failure EmptyInput
  | _ :: _ =>
      st ← find_loop (Z.to_nat (maxIterations m_cfg)) allTracks vertexingOptions
             (initialState allTracks vertexingOptions);
      outputOf st
  end.

(** *** Vocabulary of the properties *)

(** [I(V).trackLinks] as the methods read it. *)
Definition linkedTracks (fitterState : FitterState) (vtx : VertexPtr)
    : list InputTrack :=
  trackLinks (vtxInfoMap_subscript fitterState vtx).1.

(** Every linked track of [vtx] has its [TrackAtVertex] record. *)
Definition linksPresent (fitterState : FitterState) (vtx : VertexPtr) : bool :=
  forallb (fun trk => bool_decide (is_Some (tracksAtVerticesMap fitterState !! (trk, vtx))))
          (linkedTracks fitterState vtx).

(** A linked track is classified compatible and is present in [seedTracks]. *)
Definition compatibleInSeed
    (fitterState : FitterState) (vtx : VertexPtr) (seedTracks : list InputTrack)
    (trk : InputTrack) : bool :=
  match tracksAtVerticesMap fitterState !! (trk, vtx) with
  | Some trkAtVtx => isCompatibleTrack trkAtVtx && bool_decide (trk ∈ seedTracks)
  | None => false
  end.

(** The number of such tracks over the whole list of links. *)
Definition countCompatibleInSeed
    (fitterState : FitterState) (vtx : VertexPtr) (seedTracks : list InputTrack) : Z :=
  Z.of_nat (length (List.filter (compatibleInSeed fitterState vtx seedTracks)
                                (linkedTracks fitterState vtx))).

(** The count at which [checkVertexAndCompatibleTracks] declares the vertex
    good and stops counting. *)
Definition goodVertexCount (useVertexConstraintInFit : bool) : Z :=
  if addSingleTrackVertices m_cfg && useVertexConstraintInFit then 1 else 2.

(** The weights of the linked tracks, in the order of the links. *)
Definition linkedWeights (fitterState : FitterState) (vtx : VertexPtr) : list double :=
  omap (fun trk => trackWeight <$> tracksAtVerticesMap fitterState !! (trk, vtx))
       (linkedTracks fitterState vtx).

(** A sum of doubles, taken from 0 in the order of the list. *)
Definition sum_doubles (l : list double) : double := fold_left PrimFloat.add l 0%float.

(** The contamination as the spec writes it (4.5):
    [Σ wi (1 − wi) / Σ wi²], and 0 if the denominator is 0. *)
Definition contamination_spec (w : list double) : double :=
  let num := sum_doubles (map (fun wi => wi * (1 - wi))%float w) in
  let den := sum_doubles (map (fun wi => wi * wi)%float w) in
  if (den =? 0)%float then 0%float else (num / den)%float.

(** The variance in [z] of a vertex. *)
Definition var_z (V : Vertex) : double := mat4_eZ_eZ (fullCovariance V).

(** The significance of a pair as the spec writes it (4.5), candidate
    first: in one dimension [|V.z − V'.z| / √(σ²_zV + σ²_zV')], skipped
    when the sum of the variances is [<= 0]; in three and four dimensions
    skipped when the summed covariance has no inverse. *)
Definition mergeSignificance_spec (V V' : Vertex) : option double :=
  if do3dSplitting m_cfg then
    if useTime m_cfg then
      let deltaPos := vec4_sub (fullPosition V') (fullPosition V) in
      match safeInverse4 ext (mat4_add (fullCovariance V) (fullCovariance V')) with
      | None => None
      | Some inverse =>
          Some (PrimFloat.sqrt (vec4_dot ext deltaPos (mat4_mul_vec ext inverse deltaPos)))
      end
    else
      let deltaPos := vec3_sub (head3 (fullPosition V')) (head3 (fullPosition V)) in
      match safeInverse3 ext (mat3_add (topLeftCorner3 (fullCovariance V))
                                       (topLeftCorner3 (fullCovariance V'))) with
      | None => None
      | Some inverse =>
          Some (PrimFloat.sqrt (vec3_dot ext deltaPos (mat3_mul_vec ext inverse deltaPos)))
      end
  else if (var_z V + var_z V' <=? 0)%float then None
  else Some (PrimFloat.abs (position_z V - position_z V')
             / PrimFloat.sqrt (var_z V + var_z V'))%float.




(** The compatibility of a linked track with the vertex, and the distance
    in [z] of a track to the vertex, as [removeTrackIfIncompatible] reads them. *)
Definition compatibilityOf
    (fitterState : FitterState) (vtx : VertexPtr) (trk : InputTrack) : double :=
  match tracksAtVerticesMap fitterState !! (trk, vtx) with
  | Some trkAtVtx => vertexCompatibility trkAtVtx
  | None => 0%float
  end.

Definition zDistance
    (heap : gmap VertexPtr Vertex) (vtx : VertexPtr) (geoCtx : GeometryContext)
    (trk : InputTrack) : double :=
  PrimFloat.abs (v3z (params_position ext (m_extractParameters ext trk) geoCtx)
                 - position_z (deref heap vtx))%float.

(** First rule: [trk] is a linked track still in [seedTracks], of
    compatibility above 0 and not exceeded by another such track. *)
Definition maximalCompatibility
    (fitterState : FitterState) (vtx : VertexPtr) (seedTracks : list InputTrack)
    (trk : InputTrack) : Prop :=
  trk ∈ linkedTracks fitterState vtx
  /\ trk ∈ seedTracks
  /\ gtb (compatibilityOf fitterState vtx trk) 0 = true
  /\ forall t, t ∈ linkedTracks fitterState vtx -> t ∈ seedTracks ->
       (compatibilityOf fitterState vtx trk <? compatibilityOf fitterState vtx t)%float
       = false.

(** The first rule finds nothing. *)
Definition noPositiveCompatibility
    (fitterState : FitterState) (vtx : VertexPtr) (seedTracks : list InputTrack) : Prop :=
  forall t, t ∈ linkedTracks fitterState vtx -> t ∈ seedTracks ->
    gtb (compatibilityOf fitterState vtx t) 0 = false.

(** Second rule: [trk] is a seed track whose distance is below the initial
    [smallestDeltaZ] and not undercut by another seed track. *)
Definition minimalZDistance
    (heap : gmap VertexPtr Vertex) (vtx : VertexPtr) (geoCtx : GeometryContext)
    (seedTracks : list InputTrack) (trk : InputTrack) : Prop :=
  trk ∈ seedTracks
  /\ (zDistance heap vtx geoCtx trk <? DBL_MAX)%float = true
  /\ forall t, t ∈ seedTracks ->
       (zDistance heap vtx geoCtx t <? zDistance heap vtx geoCtx trk)%float = false.

(** The second rule finds nothing. *)
Definition noCloseTrack
    (heap : gmap VertexPtr Vertex) (vtx : VertexPtr) (geoCtx : GeometryContext)
    (seedTracks : list InputTrack) : Prop :=
  forall t, t ∈ seedTracks -> (zDistance heap vtx geoCtx t <? DBL_MAX)%float = false.

(** The call of the seed finder made by the iteration that starts in
    state [st] (through [doSeeding]). *)
Definition seedFinderCall (vertexingOptions : VertexingOptions) (st : FinderState)
    : Outcome (list Vertex * SeedFinderState) :=
  seedFinder_find m_cfg (st_seedTracks st)
    (set_constraint (constraint vertexingOptions) vertexingOptions)
    match set_tracksToRemove ext with
    | Some assign => assign (st_seedFinderState st) (st_removedSeedTracks st)
    | None => st_seedFinderState st
    end.

(** [st] with another state of the seed finder. *)
Definition set_seedFinderState (s : SeedFinderState) (st : FinderState) : FinderState :=
  mkFinderState (st_seedTracks st) (st_removedSeedTracks st) (st_allVertices st)
                (st_allVerticesPtr st) (st_fitterState st) s (st_heap st)
                (st_iteration st).

(** What an iteration that starts in [st] may do to the accepted vertices,
    the iteration counter and the seed tracks. *)
Definition stepFrom (st : FinderState) (step : LoopStep) : Prop :=
  match step with
  | Break st' =>
      st_allVerticesPtr st' = st_allVerticesPtr st
      /\ st_iteration st' = st_iteration st
  | Continue st' =>
      (st_allVerticesPtr st' = st_allVerticesPtr st
       \/ exists vtx, st_allVerticesPtr st' = st_allVerticesPtr st ++ [vtx])
      /\ st_iteration st' = st_iteration st + 1
      /\ (length (st_seedTracks st') < length (st_seedTracks st))%nat
  end.

(** The invariants of the two loops of [removeTrackIfIncompatible]. *)

(** Invariant of the first loop over the links already visited. *)
Definition maxCompatibility_inv
    (fs : FitterState) (vtx : VertexPtr) (seedTracks visited : list InputTrack)
    (acc : double * option nat * InputTrack) : Prop :=
  let '(maxCompatibility, maxCompSeedIt, removedTrack) := acc in
  match maxCompSeedIt with
  | None =>
      maxCompatibility = 0%float
      /\ forall t, t ∈ visited -> t ∈ seedTracks -> gtb (compatibilityOf fs vtx t) 0 = false
  | Some i =>
      find_if_track removedTrack seedTracks = Some i
      /\ removedTrack ∈ visited
      /\ maxCompatibility = compatibilityOf fs vtx removedTrack
      /\ gtb maxCompatibility 0 = true
      /\ forall t, t ∈ visited -> t ∈ seedTracks ->
           (maxCompatibility <? compatibilityOf fs vtx t)%float = false
  end.

(** Invariant of the second loop over the seed tracks already visited. *)
Definition closestTrack_inv
    (heap : gmap VertexPtr Vertex) (vtx : VertexPtr) (geoCtx : GeometryContext)
    (seedTracks visited : list InputTrack)
    (acc : double * option nat * InputTrack) : Prop :=
  let '(smallestDeltaZ, smallestDzSeedIter, removedTrack) := acc in
  match smallestDzSeedIter with
  | None =>
      smallestDeltaZ = DBL_MAX
      /\ forall t, t ∈ visited -> (zDistance heap vtx geoCtx t <? DBL_MAX)%float = false
  | Some i =>
      seedTracks !! i = Some removedTrack
      /\ smallestDeltaZ = zDistance heap vtx geoCtx removedTrack
      /\ (smallestDeltaZ <? DBL_MAX)%float = true
      /\ forall t, t ∈ visited ->
           (zDistance heap vtx geoCtx t <? smallestDeltaZ)%float = false
  end.

(** What an iteration that starts in [st] does to the working sets: a
    [break] leaves the seed tracks and the accepted vertices as they were;
    a full iteration moves seed tracks to [removedSeedTracks] and keeps or
    drops the one candidate it allocated. *)
Definition setsAfter (st : FinderState) (step : LoopStep) : Prop :=
  match step with
  | Break st' =>
      st_seedTracks st' = st_seedTracks st
      /\ st_allVertices st' = st_allVertices st
      /\ st_allVerticesPtr st' = st_allVerticesPtr st
  | Continue st' =>
      st_seedTracks st ≡ₚ st_seedTracks st' ++ st_removedSeedTracks st'
      /\ st_seedTracks st' `sublist_of` st_seedTracks st
      /\ ((st_allVertices st' = st_allVertices st
           /\ st_allVerticesPtr st' = st_allVerticesPtr st)
          \/ (st_allVertices st' = st_allVertices st ++ [allocate ext (st_heap st)]
              /\ st_allVerticesPtr st'
                 = st_allVerticesPtr st ++ [allocate ext (st_heap st)]))
  end.

(** The decision [addCompatibleTracksToVertex] takes on one track: it is
    attached if it is not farther in [z] than [tracksMaxZinterval] and the
    significance of its impact parameters, which is then computed, is below
    [tracksMaxSignificance]. *)
Definition attaches
    (heap : gmap VertexPtr Vertex) (vtx : VertexPtr)
    (vertexingOptions : VertexingOptions) (trk : InputTrack) : bool :=
  if (tracksMaxZinterval m_cfg
        <? zDistance heap vtx (geoContext vertexingOptions) trk)%float
  then false
  else match getIPSignificance trk (deref heap vtx) vertexingOptions with
       | Ok ipSig => (ipSig <? tracksMaxSignificance m_cfg)%float
       | _ => false
       end.

(** What [addCompatibleTracksToVertex] does to the fitter state for a
    track it attaches (source lines 256-261). *)
Definition attachTrack (trk : InputTrack) (vtx : VertexPtr) (fitterState : FitterState)
    : FitterState :=
  let fitterState :=
    match tracksAtVerticesMap fitterState !! (trk, vtx) with
    | Some _ => fitterState
    | None =>
        set_tracksAtVerticesMap
          (<[(trk, vtx) := TrackAtVertex_new ext (m_extractParameters ext trk) trk]>
             (tracksAtVerticesMap fitterState)) fitterState
    end in
  let '(info, fitterState) := vtxInfoMap_subscript fitterState vtx in
  let info :=
    mkVertexInfo (info_constraint info) (seedPosition info)
                 (trackLinks info ++ [trk]) in
  set_vtxInfoMap (<[vtx := info]> (vtxInfoMap fitterState)) fitterState.

(** The z of a track. *)
Definition trackZ (geoCtx : GeometryContext) (trk : InputTrack) : double :=
  v3z (params_position ext (m_extractParameters ext trk) geoCtx).

(** Invariant of the search for the nearest seed track in
    [canRecoverFromNoCompatibleTracks], over the seed tracks visited. *)
Definition nearestTrack_inv
    (heap : gmap VertexPtr Vertex) (vtx : VertexPtr) (geoCtx : GeometryContext)
    (visited : list InputTrack) (acc : double * double * bool) : Prop :=
  let '(smallestDeltaZ, newZ, nearTrackFound) := acc in
  if nearTrackFound then
    exists trk,
      trk ∈ visited
      /\ newZ = trackZ geoCtx trk
      /\ smallestDeltaZ = zDistance heap vtx geoCtx trk
      /\ (smallestDeltaZ <? DBL_MAX)%float = true
      /\ forall t, t ∈ visited ->
           (zDistance heap vtx geoCtx t <? smallestDeltaZ)%float = false
  else
    smallestDeltaZ = DBL_MAX
    /\ forall t, t ∈ visited -> (zDistance heap vtx geoCtx t <? DBL_MAX)%float = false.

(** The fitter state with a fresh [VertexInfo] for [vtx], as
    [canPrepareVertexForFit] and the recovery set it up. *)
Definition resetVertexInfo
    (currentConstraint : Vertex) (heap : gmap VertexPtr Vertex) (vtx : VertexPtr)
    (fitterState : FitterState) : FitterState :=
  set_vtxInfoMap
    (<[vtx := VertexInfo_new currentConstraint (fullPosition (deref heap vtx))]>
       (vtxInfoMap fitterState)) fitterState.

(** The heap after the recovery has put the candidate at the z of [trk]. *)
Definition relocated
    (heap : gmap VertexPtr Vertex) (vtx : VertexPtr) (geoCtx : GeometryContext)
    (trk : InputTrack) : gmap VertexPtr Vertex :=
  <[vtx := setFullPosition (mkVector4 0 0 (trackZ geoCtx trk) 0) (deref heap vtx)]> heap.

End Methods.

End Finder.

(** * A small instance

    Tracks are numbered; track [n] sits on the beam line at [z = n]. The
    collaborators are the simplest ones: the seed finder proposes the
    position of the first remaining seed track (and hands back the
    constraint when no track is left), the estimator reports the distance
    in [z] with unit errors, the fitter leaves the state as it is. *)
Module Example.

Definition track_z (trk : InputTrack) : double :=
  PrimFloat.of_uint63 (Uint63.of_Z (Z.of_N trk)).

Definition vertexAt (z : double) : @Vertex Vector3 :=
  mkVertex (mkVector4 0 0 z 0) (SquareMatrix4_Identity_times 1) (0%float, 0%float) [].

Definition ext : @Externals Vector3 unit unit unit unit :=
  {| m_extractParameters := fun trk => mkVector3 0 0 (track_z trk);
     params_position := fun params _ => params;
     TrackAtVertex_new := fun params trk =>
       mkTrackAtVertex params trk 0%float 0%float 1%float false;
     std_pow := fun x _ => (x * x)%float;
     safeInverse4 := fun _ => None;
     safeInverse3 := fun _ => None;
     mat4_mul_vec := fun _ v => v;
     mat3_mul_vec := fun _ v => v;
     vec4_dot := fun _ _ => 0%float;
     vec3_dot := fun _ _ => 0%float;
     allocate := fun heap => fresh ({[nullptr]} ∪ dom heap);
     FitterInternals_new := fun _ => tt;
     SeedFinderState_new := tt;
     set_tracksToRemove := None;
     addVertexToMultiMap := fun fs vtx =>
       mkFitterState (vertexCollection fs) (vtxInfoMap fs)
         (trackToVerticesMultiMap fs
            ++ map (fun trk => (trk, vtx)) (linkedTracks fs vtx))
         (tracksAtVerticesMap fs) (fitterInternals fs);
     removeVertexFromMultiMap := fun fs vtx =>
       mkFitterState (vertexCollection fs) (vtxInfoMap fs)
         (List.filter (fun e => negb (N.eqb (snd e) vtx)) (trackToVerticesMultiMap fs))
         (tracksAtVerticesMap fs) (fitterInternals fs);
     removeVertexFromCollection := fun fs vtx =>
       Ok (mkFitterState
             (List.filter (fun v => negb (N.eqb v vtx)) (vertexCollection fs))
             (vtxInfoMap fs) (trackToVerticesMultiMap fs)
             (tracksAtVerticesMap fs) (fitterInternals fs)) |}.

Definition cfgWith (time : bool) : @Config Vector3 unit unit unit unit :=
  {| vertexFitter_addVtxToFit := fun fs heap _ _ => Ok (fs, heap);
     vertexFitter_fit := fun fs heap _ => Ok (fs, heap);
     seedFinder_find := fun tracks opts st =>
       match tracks with
       | trk :: _ => Ok ([vertexAt (track_z trk)], st)
       | [] => Ok ([constraint opts], st)
       end;
     ipEstimator_getImpactParameters := fun params vtx _ _ useTime =>
       Ok (mkImpactParametersAndSigma 0%float (v3z params - position_z vtx)%float
             1%float 1%float
             (if useTime then Some 3%float else None)
             (if useTime then Some 1%float else None));
     maxIterations := 100;
     addSingleTrackVertices := false;
     doRealMultiVertex := false;
     useSeedConstraint := true;
     useVertexCovForIPEstimation := false;
     useTime := time;
     useFastCompatibility := false;
     do3dSplitting := false;
     tracksMaxZinterval := 3%float;
     tracksMaxSignificance := 5%float;
     maxVertexChi2 := 18.5%float;
     minWeight := 0.125%float;
     maximumVertexContamination := 0.5%float;
     maxMergeVertexSignificance := 3%float;
     looseConstrValue := 1e8%float;
     defaultConstrFitQuality := (0%float, (-3)%float) |}.

Definition cfg := cfgWith false.

(** Options with the beam-spot constraint at [z]; by default at [z = 0],
    where no track is. *)
Definition optionsAt (z : double) : @VertexingOptions Vector3 unit unit :=
  mkVertexingOptions (vertexAt z) true tt tt.

Definition options := optionsAt 0.

(** A fitter state in which vertex [7] has the tracks [1], [2] and [3]
    linked, each with the record the constructor makes (weight 1). *)
Definition threeLinked : @FitterState Vector3 unit :=
  mkFitterState [7%N]
    {[ 7%N := mkVertexInfo (vertexAt 0) (mkVector4 0 0 0 0) [1%N; 2%N; 3%N] ]}
    []
    (list_to_map
       (map (fun trk => ((trk, 7%N),
                        TrackAtVertex_new ext (m_extractParameters ext trk) trk))
            [1%N; 2%N; 3%N]))
    tt.

(** Vertex [7] with two linked tracks of weight 1/2 each: the
    contamination is [(1/4 + 1/4) / (1/4 + 1/4) = 1]. *)
Definition halfWeights : @FitterState Vector3 unit :=
  mkFitterState [7%N]
    {[ 7%N := mkVertexInfo (vertexAt 0) (mkVector4 0 0 0 0) [1%N; 2%N] ]}
    []
    (list_to_map
       (map (fun trk => ((trk, 7%N),
                        mkTrackAtVertex (m_extractParameters ext trk) trk
                          0%float 0%float 0.5%float false))
            [1%N; 2%N]))
    tt.

(** A fitter state without any link, and a heap in which vertex [7] has
    a position that is not a number, as a diverged fit leaves it. *)
Definition noLinks : @FitterState Vector3 unit := mkFitterState [] ∅ [] ∅ tt.

Definition heapWithNaN : gmap VertexPtr (@Vertex Vector3) :=
  {[ 7%N := vertexAt nan ]}.

Definition heapAtZero : gmap VertexPtr (@Vertex Vector3) :=
  {[ 7%N := vertexAt 0 ]}.

(** Vertex [7] with the tracks [1] and [2] linked, of compatibility 4 and 9. *)
Definition twoCompatibilities : @FitterState Vector3 unit :=
  mkFitterState [7%N]
    {[ 7%N := mkVertexInfo (vertexAt 0) (mkVector4 0 0 0 0) [1%N; 2%N] ]}
    []
    (list_to_map
       [((1%N, 7%N), mkTrackAtVertex (m_extractParameters ext 1%N) 1%N
                       0%float 4%float 1%float false);
        ((2%N, 7%N), mkTrackAtVertex (m_extractParameters ext 2%N) 2%N
                       0%float 9%float 1%float false)])
    tt.

(** Runs of the finder. With the constraint at [z = 20], the tracks 5 and 6
    make a vertex near [z = 5]; track 20 sits where the constraint is, so
    that the seed finder then proposes the z of the constraint. *)
Definition vertices_of (o : Outcome (list (@Vertex Vector3))) : list (@Vertex Vector3) :=
  match o with Ok l => l | _ => [] end.

Definition state_of (o : Outcome (@FinderState Vector3 unit unit))
    : @FinderState Vector3 unit unit :=
  match o with Ok st => st | _ => mkFinderState [] [] [] [] noLinks tt ∅ 0 end.

Definition afterFirstVertex : @FinderState Vector3 unit unit :=
  state_of (find_loop ext (with_maxIterations 1 cfg) 1 [5%N; 6%N; 20%N] (optionsAt 20)
              (initialState ext [5%N; 6%N; 20%N] (optionsAt 20))).

Definition fiveTracks : list InputTrack := [1%N; 2%N; 3%N; 9%N; 10%N].

Definition finalState : @FinderState Vector3 unit unit :=
  state_of (find_loop ext cfg 100 fiveTracks options
              (initialState ext fiveTracks options)).

(** An accepted vertex [5] at [z = 1/4] and a candidate [7] at [z = 0],
    both with unit variance in [z]. *)
Definition closeVertices : gmap VertexPtr (@Vertex Vector3) :=
  {[ 5%N := vertexAt 0.25; 7%N := vertexAt 0 ]}.

(** The value a call returns, [d] where it does not return. *)
Definition value_of {A} (d : A) (o : Outcome A) : A :=
  match o with Ok a => a | _ => d end.

(** The tracks 1, 2 and 3 are within the z interval of a vertex at
    [z = 0], track 9 is not. *)
Definition attached : @FitterState Vector3 unit :=
  value_of noLinks
    (addCompatibleTracksToVertex ext cfg [1%N; 2%N; 3%N; 9%N] 7%N heapAtZero
       noLinks options).

Definition prepared
    : bool * @FitterState Vector3 unit * gmap VertexPtr (@Vertex Vector3) :=
  value_of (false, noLinks, ∅)
    (canPrepareVertexForFit ext cfg [1%N; 2%N; 3%N; 9%N] [1%N; 2%N; 3%N; 9%N] 7%N
       heapAtZero (vertexAt 0) noLinks options).

(** A candidate at [z = 100], far from every track; the nearest seed
    track is track 3. *)
Definition heapFarAway : gmap VertexPtr (@Vertex Vector3) :=
  {[ 7%N := vertexAt 100 ]}.

Definition recovered
    : bool * @FitterState Vector3 unit * gmap VertexPtr (@Vertex Vector3) :=
  value_of (false, noLinks, ∅)
    (canRecoverFromNoCompatibleTracks ext cfg [1%N; 2%N; 3%N; 9%N] [1%N; 2%N; 3%N]
       7%N heapFarAway (vertexAt 0) noLinks options).

(** The state after the first iteration over the five tracks. *)
Definition afterOneIteration : @FinderState Vector3 unit unit :=
  match find_iteration ext cfg fiveTracks options
          (initialState ext fiveTracks options) with
  | Ok (Continue st) => st
  | _ => initialState ext fiveTracks options
  end.

(** The same configuration with a seed finder that fails. *)
Definition cfgSeedFinderFails : @Config Vector3 unit unit unit unit :=
  mkConfig (vertexFitter_addVtxToFit cfg) (vertexFitter_fit cfg)
           (fun _ _ _ => Failure (CollaboratorError 1))
           (ipEstimator_getImpactParameters cfg) (maxIterations cfg)
           (addSingleTrackVertices cfg) (doRealMultiVertex cfg) (useSeedConstraint cfg)
           (useVertexCovForIPEstimation cfg) (useTime cfg) (useFastCompatibility cfg)
           (do3dSplitting cfg) (tracksMaxZinterval cfg) (tracksMaxSignificance cfg)
           (maxVertexChi2 cfg) (minWeight cfg) (maximumVertexContamination cfg)
           (maxMergeVertexSignificance cfg) (looseConstrValue cfg)
           (defaultConstrFitQuality cfg).


(** The same configuration with a seed finder that fails once track 9 is
    the first seed track left, that is, on its second call for
    [fiveTracks]. *)
Definition cfgSecondSeedFails : @Config Vector3 unit unit unit unit :=
  mkConfig (vertexFitter_addVtxToFit cfg) (vertexFitter_fit cfg)
           (fun tracks opts st =>
              match tracks with
              | trk :: _ =>
                  if N.eqb trk 9 then Failure (CollaboratorError 7)
                  else Ok ([vertexAt (track_z trk)], st)
              | [] => Ok ([constraint opts], st)
              end)
           (ipEstimator_getImpactParameters cfg) (maxIterations cfg)
           (addSingleTrackVertices cfg) (doRealMultiVertex cfg) (useSeedConstraint cfg)
           (useVertexCovForIPEstimation cfg) (useTime cfg) (useFastCompatibility cfg)
           (do3dSplitting cfg) (tracksMaxZinterval cfg) (tracksMaxSignificance cfg)
           (maxVertexChi2 cfg) (minWeight cfg) (maximumVertexContamination cfg)
           (maxMergeVertexSignificance cfg) (looseConstrValue cfg)
           (defaultConstrFitQuality cfg).


End Example.

(** * Properties *)

(** ** Order facts on doubles

    The operations of the primitive floats are specified through
    [SpecFloat]. Used below: [<] is transitive and irreflexive, [x <= y]
    excludes [y < x], addition commutes, and [|x − y| = |y − x|]. *)

Ltac cmp_cases :=
  repeat match goal with
  | H : context [Z.compare ?x ?y] |- _ =>
      destruct (Z.compare_spec x y); try discriminate H
  | |- context [Z.compare ?x ?y] => destruct (Z.compare_spec x y)
  | H : context [Pos.compare ?x ?y] |- _ =>
      destruct (Pos.compare_spec x y); try discriminate H
  | |- context [Pos.compare ?x ?y] => destruct (Pos.compare_spec x y)
  end.

Lemma SFltb_trans a b c :
  SFltb a b = true -> SFltb b c = true -> SFltb a c = true.
Proof.
  unfold SFltb, SFcompare.
  destruct a as [[]|[]| |[] ma ea], b as [[]|[]| |[] mb eb],
           c as [[]|[]| |[] mc ec];
    try discriminate; try reflexivity; intros Hab Hbc;
    change (Pos.compare_cont Eq) with Pos.compare in *;
    cmp_cases; subst; simpl in *; try discriminate; try reflexivity; try lia.
Qed.


Lemma ltb_trans (a b c : double) :
  PrimFloat.ltb a b = true -> PrimFloat.ltb b c = true -> PrimFloat.ltb a c = true.
Proof. rewrite !ltb_spec. apply SFltb_trans. Qed.


(** If [m] is not below [c] and [m < m'], then [m'] is not below [c]. *)
Lemma not_ltb_mono (m m' c : double) :
  PrimFloat.ltb m c = false -> PrimFloat.ltb m m' = true -> PrimFloat.ltb m' c = false.
Proof.
  intros Hmc Hmm'. destruct (PrimFloat.ltb m' c) eqn:E; [|reflexivity].
  rewrite (ltb_trans _ _ _ Hmm' E) in Hmc. discriminate.
Qed.


Lemma Prim2SF_inj (x y : double) : Prim2SF x = Prim2SF y -> x = y.
Proof.
  intros H. rewrite <- (SF2Prim_Prim2SF x), <- (SF2Prim_Prim2SF y), H. reflexivity.
Qed.

Lemma SFltb_irrefl a : SFltb a a = false.
Proof.
  unfold SFltb, SFcompare. destruct a as [[]|[]| |[] m e]; try reflexivity;
    rewrite Z.compare_refl; change (Pos.compare_cont Eq m m) with (Pos.compare m m);
    rewrite Pos.compare_refl; reflexivity.
Qed.

Lemma SFadd_comm prec emax x y : SFadd prec emax x y = SFadd prec emax y x.
Proof.
  destruct x as [[]|[]| |[] mx ex], y as [[]|[]| |[] my ey]; try reflexivity;
    cbn [SFadd]; rewrite (Z.min_comm ey ex), Z.add_comm; reflexivity.
Qed.

Lemma SFabs_binary_round_aux prec emax s s' m e l :
  SFabs (binary_round_aux prec emax s m e l) = SFabs (binary_round_aux prec emax s' m e l).
Proof.
  unfold binary_round_aux.
  destruct (shr_fexp prec emax m e l) as [mrs' e'].
  destruct (shr_fexp prec emax _ e' loc_Exact) as [mrs'' e''].
  destruct (shr_m mrs'') as [|p|p]; try reflexivity.
  destruct (e'' <=? emax - prec)%Z; reflexivity.
Qed.

Lemma SFabs_binary_normalize_opp prec emax m e sz :
  SFabs (binary_normalize prec emax (- m) e sz) = SFabs (binary_normalize prec emax m e sz).
Proof.
  destruct m as [|p|p]; try reflexivity; change (- Z.pos p)%Z with (Z.neg p);
    change (- Z.neg p)%Z with (Z.pos p); unfold binary_normalize, binary_round;
    destruct (shl_align p e _) as [mz ez]; apply SFabs_binary_round_aux.
Qed.

Lemma SFabs_sub_swap prec emax x y :
  SFabs (SFsub prec emax x y) = SFabs (SFsub prec emax y x).
Proof.
  destruct x as [[]|[]| |[] mx ex], y as [[]|[]| |[] my ey]; try reflexivity;
    cbn [SFsub]; rewrite (Z.min_comm ey ex);
    rewrite <- SFabs_binary_normalize_opp; f_equal; f_equal; cbn [cond_Zopp]; lia.
Qed.

Lemma double_add_comm (x y : double) : (x + y = y + x)%float.
Proof. apply Prim2SF_inj. rewrite !add_spec. apply SFadd_comm. Qed.

Lemma double_abs_sub_swap (x y : double) : (PrimFloat.abs (x - y) = PrimFloat.abs (y - x))%float.
Proof. apply Prim2SF_inj. rewrite !abs_spec, !sub_spec. apply SFabs_sub_swap. Qed.

Lemma ltb_irrefl (a : double) : PrimFloat.ltb a a = false.
Proof. rewrite ltb_spec. apply SFltb_irrefl. Qed.

Lemma SFltb_binary_round_aux_zero prec emax m e l :
  SFltb (binary_round_aux prec emax false m e l) (S754_zero false) = false.
Proof.
  unfold binary_round_aux.
  destruct (shr_fexp prec emax m e l) as [mrs' e'].
  destruct (shr_fexp prec emax _ e' loc_Exact) as [mrs'' e''].
  destruct (shr_m mrs'') as [|p|p]; try reflexivity.
  destruct (e'' <=? emax - prec)%Z; reflexivity.
Qed.

Lemma sqrt_not_negative (x : double) : (PrimFloat.sqrt x <? 0)%float = false.
Proof.
  rewrite ltb_spec, sqrt_spec. change (Prim2SF 0) with (S754_zero false).
  destruct (Prim2SF x) as [s|s| |s m e]; try destruct s; try reflexivity.
  unfold SF64sqrt, SFsqrt.
  destruct (SFsqrt_core_binary prec emax (Z.pos m) e) as [[mz ez] lz].
  apply SFltb_binary_round_aux_zero.
Qed.


Section Properties.

Context {BoundTrackParameters GeometryContext MagneticFieldContext : Type}.
Context {SeedFinderState FitterInternals : Type}.

Abbreviation Config' :=
  (@Config BoundTrackParameters GeometryContext MagneticFieldContext
           SeedFinderState FitterInternals).
Abbreviation Externals' :=
  (@Externals BoundTrackParameters GeometryContext MagneticFieldContext
              SeedFinderState FitterInternals).
Abbreviation FitterState' := (@FitterState BoundTrackParameters FitterInternals).

Variable ext : Externals'.
Variable m_cfg : Config'.

Lemma find_if_track_Some trk (seedTracks : list InputTrack) :
  is_Some (find_if_track trk seedTracks) <-> trk ∈ seedTracks.
Proof.
  unfold find_if_track. split.
  - intros [i Hi]. apply fmap_Some in Hi as [[j x] [Hf ->]].
    apply list_find_Some in Hf as (Hl & <- & _).
    eapply list_elem_of_lookup_2; eauto.
  - intros Hin.
    destruct (list_find (fun seedTrk => trk = seedTrk) seedTracks) as [[j x]|] eqn:E.
    + eexists; reflexivity.
    + apply list_find_None in E. rewrite Forall_forall in E.
      exfalso. exact (E _ Hin eq_refl).
Qed.

Lemma find_if_track_bool_decide trk (seedTracks : list InputTrack) :
  bool_decide (trk ∈ seedTracks) =
  match find_if_track trk seedTracks with Some _ => true | None => false end.
Proof.
  destruct (find_if_track trk seedTracks) as [i|] eqn:E.
  - apply bool_decide_eq_true, find_if_track_Some. rewrite E. eexists; reflexivity.
  - apply bool_decide_eq_false. intros Hin%find_if_track_Some.
    rewrite E in Hin. destruct Hin; discriminate.
Qed.

Lemma tracksAtVerticesMap_at_present (fs : FitterState') trk vtx :
  bool_decide (is_Some (tracksAtVerticesMap fs !! (trk, vtx))) = true ->
  exists t, tracksAtVerticesMap fs !! (trk, vtx) = Some t
            /\ tracksAtVerticesMap_at fs trk vtx = Ok t.
Proof.
  intros [t Ht]%bool_decide_eq_true. exists t. split; [exact Ht|].
  unfold tracksAtVerticesMap_at. rewrite Ht. reflexivity.
Qed.

(** ** checkVertexAndCompatibleTracks *)

(** The loop, started with [n] tracks counted and the vertex not yet good:
    it counts up to [goodVertexCount] and no further. *)
Lemma checkVertexAndCompatibleTracks_loop_spec
    links vtx seedTracks (fs : FitterState') useC n :
  forallb (fun trk => bool_decide (is_Some (tracksAtVerticesMap fs !! (trk, vtx))))
          links = true ->
  0 <= n < goodVertexCount m_cfg useC ->
  checkVertexAndCompatibleTracks_loop m_cfg links vtx seedTracks fs useC n =
  Ok (Z.min (n + Z.of_nat (length (List.filter
                                     (compatibleInSeed m_cfg fs vtx seedTracks) links)))
            (goodVertexCount m_cfg useC),
      goodVertexCount m_cfg useC
        <=? n + Z.of_nat (length (List.filter
                                    (compatibleInSeed m_cfg fs vtx seedTracks) links))).
Proof.
  revert n. induction links as [|trk links IH]; intros n Hpres Hn.
  - simpl. f_equal. f_equal; [lia|]. symmetry. apply Z.leb_gt. lia.
  - simpl in Hpres. apply andb_true_iff in Hpres as [Htrk Hpres].
    destruct (tracksAtVerticesMap_at_present _ _ _ Htrk) as (t & Hlook & Hat).
    cbn [checkVertexAndCompatibleTracks_loop List.filter].
    rewrite Hat. cbn [mbind Outcome_bind].
    assert (Hc : compatibleInSeed m_cfg fs vtx seedTracks trk
                 = isCompatibleTrack m_cfg t
                   && match find_if_track trk seedTracks with
                      | Some _ => true | None => false end).
    { unfold compatibleInSeed. rewrite Hlook, find_if_track_bool_decide. reflexivity. }
    rewrite !Hc. clear Hc.
    destruct (isCompatibleTrack m_cfg t); cbn [andb];
      [destruct (find_if_track trk seedTracks) as [it|]|];
      try (rewrite (IH n Hpres Hn); reflexivity).
    cbn [length]. unfold goodVertexCount in *.
    destruct (addSingleTrackVertices m_cfg && useC).
    + f_equal. f_equal; [lia|]. symmetry. apply Z.leb_le. lia.
    + destruct (1 <? n + 1) eqn:E.
      * apply Z.ltb_lt in E. f_equal. f_equal; [lia|]. symmetry. apply Z.leb_le. lia.
      * apply Z.ltb_ge in E. rewrite (IH (n + 1)) by (auto; lia).
        f_equal. f_equal; [lia|]. f_equal. lia.
Qed.

Lemma checkVertexAndCompatibleTracks_spec vtx seedTracks (fs : FitterState') useC :
  linksPresent fs vtx = true ->
  checkVertexAndCompatibleTracks m_cfg vtx seedTracks fs useC =
  Ok (Z.min (countCompatibleInSeed m_cfg fs vtx seedTracks) (goodVertexCount m_cfg useC),
      goodVertexCount m_cfg useC <=? countCompatibleInSeed m_cfg fs vtx seedTracks,
      (vtxInfoMap_subscript fs vtx).2).
Proof.
  intros Hpres. unfold checkVertexAndCompatibleTracks, countCompatibleInSeed.
  unfold linksPresent, linkedTracks in *.
  assert (Hmap : tracksAtVerticesMap (vtxInfoMap_subscript fs vtx).2
                 = tracksAtVerticesMap fs).
  { unfold vtxInfoMap_subscript. destruct (vtxInfoMap fs !! vtx); reflexivity. }
  destruct (vtxInfoMap_subscript fs vtx) as [info fs'] eqn:E. cbn [fst snd] in *.
  assert (Hc : forall trk, compatibleInSeed m_cfg fs' vtx seedTracks trk
                           = compatibleInSeed m_cfg fs vtx seedTracks trk).
  { intros trk. unfold compatibleInSeed. rewrite Hmap. reflexivity. }
  rewrite checkVertexAndCompatibleTracks_loop_spec.
  - cbn [mbind Outcome_bind]. rewrite (filter_ext _ _ Hc), !Z.add_0_l. reflexivity.
  - rewrite Hmap. exact Hpres.
  - unfold goodVertexCount. destruct (_ && _); lia.
Qed.

(** C1: for every vertex candidate whose linked tracks have their records,
    [checkVertexAndCompatibleTracks] returns, and [isGoodVertex] is true
    exactly when either [addSingleTrackVertices] and the constraint flag
    are set and at least one linked track classified compatible is in
    [seedTracks], or at least two such tracks are. *)
Theorem checkVertexAndCompatibleTracks_isGoodVertex
    vtx seedTracks (fs : FitterState') useVertexConstraintInFit :
  linksPresent fs vtx = true ->
  exists nCompatibleTracks isGoodVertex fs',
    checkVertexAndCompatibleTracks m_cfg vtx seedTracks fs useVertexConstraintInFit
    = Ok (nCompatibleTracks, isGoodVertex, fs')
    /\ (isGoodVertex = true <->
        (addSingleTrackVertices m_cfg = true /\ useVertexConstraintInFit = true
         /\ 1 <= countCompatibleInSeed m_cfg fs vtx seedTracks)
        \/ 2 <= countCompatibleInSeed m_cfg fs vtx seedTracks).
Proof.
  intros Hpres. eexists _, _, _. split.
  - apply checkVertexAndCompatibleTracks_spec, Hpres.
  - unfold goodVertexCount. rewrite Z.leb_le.
    destruct (addSingleTrackVertices m_cfg), useVertexConstraintInFit; cbn [andb];
      intuition (try discriminate; lia).
Qed.

(** C4, amended: the count returned is the number of linked tracks that
    are classified compatible and present in [seedTracks], cut off at the
    count that makes the vertex good (1 with [addSingleTrackVertices] and
    the constraint flag, 2 otherwise), where the loop is left. *)
Theorem checkVertexAndCompatibleTracks_nCompatibleTracks
    vtx seedTracks (fs : FitterState') useVertexConstraintInFit :
  linksPresent fs vtx = true ->
  exists nCompatibleTracks isGoodVertex fs',
    checkVertexAndCompatibleTracks m_cfg vtx seedTracks fs useVertexConstraintInFit
    = Ok (nCompatibleTracks, isGoodVertex, fs')
    /\ nCompatibleTracks
       = Z.min (countCompatibleInSeed m_cfg fs vtx seedTracks)
               (if addSingleTrackVertices m_cfg && useVertexConstraintInFit
                then 1 else 2).
Proof.
  intros Hpres. eexists _, _, _. split.
  - apply checkVertexAndCompatibleTracks_spec, Hpres.
  - reflexivity.
Qed.

Lemma vtxInfoMap_subscript_tracksAtVerticesMap (fs : FitterState') vtx :
  tracksAtVerticesMap (vtxInfoMap_subscript fs vtx).2 = tracksAtVerticesMap fs.
Proof. unfold vtxInfoMap_subscript. destruct (vtxInfoMap fs !! vtx); reflexivity. Qed.

(** ** keepNewVertex *)

Lemma contaminationSums_spec links vtx (fs fs0 : FitterState') a b :
  tracksAtVerticesMap fs = tracksAtVerticesMap fs0 ->
  forallb (fun trk => bool_decide (is_Some (tracksAtVerticesMap fs0 !! (trk, vtx))))
          links = true ->
  contaminationSums links vtx fs (a, b) =
  Ok (fold_left PrimFloat.add
        (map (fun wi => wi * (1 - wi))%float
           (omap (fun trk => trackWeight <$> tracksAtVerticesMap fs0 !! (trk, vtx)) links)) a,
      fold_left PrimFloat.add
        (map (fun wi => wi * wi)%float
           (omap (fun trk => trackWeight <$> tracksAtVerticesMap fs0 !! (trk, vtx)) links)) b).
Proof.
  intros Hmap. revert a b. induction links as [|trk links IH]; intros a b Hpres.
  - reflexivity.
  - simpl in Hpres. apply andb_true_iff in Hpres as [Htrk Hpres].
    destruct (tracksAtVerticesMap_at_present _ _ _ Htrk) as (t & Hlook & _).
    cbn [contaminationSums omap list_omap]. unfold tracksAtVerticesMap_at.
    rewrite Hmap, Hlook. cbn [mbind Outcome_bind fmap option_fmap option_map map fold_left].
    apply IH, Hpres.
Qed.

(** What [keepNewVertex] returns, in the words of the spec. *)
Lemma keepNewVertex_spec vtx heap allVertices (fs : FitterState') :
  linksPresent fs vtx = true ->
  keepNewVertex ext m_cfg vtx heap allVertices fs =
  Ok (negb (gtb (contamination_spec (linkedWeights fs vtx))
                (maximumVertexContamination m_cfg))
      && negb (isMergedVertex ext m_cfg vtx heap allVertices),
      (vtxInfoMap_subscript fs vtx).2).
Proof.
  intros Hpres. unfold keepNewVertex, linkedWeights, linksPresent, linkedTracks in *.
  pose proof (vtxInfoMap_subscript_tracksAtVerticesMap fs vtx) as Hmap.
  destruct (vtxInfoMap_subscript fs vtx) as [info fs'] eqn:E. cbn [fst snd] in *.
  rewrite (contaminationSums_spec _ _ _ fs _ _ Hmap Hpres).
  cbn [mbind Outcome_bind]. unfold contamination_spec, sum_doubles.
  set (num := fold_left _ (map (fun wi => wi * (1 - wi))%float _) _).
  set (den := fold_left _ (map (fun wi => wi * wi)%float _) _).
  destruct (den =? 0)%float; cbn [negb];
    destruct (gtb _ (maximumVertexContamination m_cfg)); cbn [negb andb];
    try reflexivity; destruct (isMergedVertex _ _ _ _ _); reflexivity.
Qed.

(** C2: for every candidate whose linked tracks have their records, the
    loop of [keepNewVertex] computes the two sums [Σ wi (1 − wi)] and
    [Σ wi²] over the weights of the linked tracks, the contamination is
    their quotient (0 when the denominator is 0), and the candidate is
    rejected whenever it exceeds [maximumVertexContamination]. *)
Theorem keepNewVertex_contamination vtx heap allVertices (fs : FitterState') :
  linksPresent fs vtx = true ->
  contaminationSums (linkedTracks fs vtx) vtx fs (0%float, 0%float)
  = Ok (sum_doubles (map (fun wi => wi * (1 - wi))%float (linkedWeights fs vtx)),
        sum_doubles (map (fun wi => wi * wi)%float (linkedWeights fs vtx)))
  /\ (gtb (contamination_spec (linkedWeights fs vtx))
          (maximumVertexContamination m_cfg) = true ->
      exists fs', keepNewVertex ext m_cfg vtx heap allVertices fs = Ok (false, fs')).
Proof.
  intros Hpres. split.
  - apply contaminationSums_spec; [reflexivity|exact Hpres].
  - intros Hgt. eexists. rewrite keepNewVertex_spec by exact Hpres.
    rewrite Hgt. reflexivity.
Qed.

(** ** isMergedVertex *)

(** The significance the loop computes for a pair is the one of the spec. *)
Lemma mergeSignificance_refines (V V' : Vertex) :
  mergeSignificance ext m_cfg (fullPosition V) (fullCovariance V)
                    (fullPosition V') (fullCovariance V')
  = mergeSignificance_spec ext m_cfg V V'.
Proof.
  unfold mergeSignificance, mergeSignificance_spec, var_z, position_z.
  destruct (do3dSplitting m_cfg); cbn [negb]; [reflexivity|].
  rewrite (double_add_comm (mat4_eZ_eZ (fullCovariance V'))).
  rewrite (double_abs_sub_swap (vec4_eZ (fullPosition V'))).
  reflexivity.
Qed.

(** C3: [isMergedVertex] returns true exactly when some vertex of the list
    other than the candidate has a significance below
    [maxMergeVertexSignificance]; the significance is the one of the spec
    ([mergeSignificance_spec]: [|V.z − V'.z| / √(σ²_zV + σ²_zV')] without
    3D splitting), and a pair with no significance (sum of the z variances
    [<= 0], or no inverse of the summed covariance) counts for nothing. *)
Theorem isMergedVertex_iff vtx heap (allVertices : list VertexPtr) :
  isMergedVertex ext m_cfg vtx heap allVertices = true <->
  exists otherVtx,
    otherVtx ∈ allVertices /\ otherVtx <> vtx
    /\ exists s,
         mergeSignificance_spec ext m_cfg (deref heap vtx) (deref heap otherVtx) = Some s
         /\ (s <? maxMergeVertexSignificance m_cfg)%float = true.
Proof.
  induction allVertices as [|o l IH]; cbn [isMergedVertex].
  - split; [discriminate|]. intros (x & Hx & _). inversion Hx.
  - destruct (decide (vtx = o)) as [->|Hne].
    + rewrite IH. split; intros (x & Hx & Hxo & Hs).
      * exists x. split; [right; exact Hx|]. auto.
      * exists x. apply elem_of_cons in Hx as [->|Hx]; [contradiction|]. auto.
    + rewrite mergeSignificance_refines.
      destruct (mergeSignificance_spec ext m_cfg (deref heap vtx) (deref heap o))
        as [s|] eqn:Es.
      * destruct (s <? maxMergeVertexSignificance m_cfg)%float eqn:Elt.
        -- split; [intros _|reflexivity]. exists o.
           split; [left|split; [congruence|exists s; auto]].
        -- rewrite IH. split; intros (x & Hx & Hxo & s' & Hs' & Hlt).
           ++ exists x. split; [right; exact Hx|eauto].
           ++ apply elem_of_cons in Hx as [->|Hx]; [congruence|]. exists x. eauto.
      * rewrite IH. split; intros (x & Hx & Hxo & s' & Hs' & Hlt).
        -- exists x. split; [right; exact Hx|eauto].
        -- apply elem_of_cons in Hx as [->|Hx]; [congruence|]. exists x. eauto.
Qed.

(** ** getIPSignificance *)


(** ** removeTrackIfIncompatible *)

Lemma find_if_track_lookup trk (seedTracks : list InputTrack) i :
  find_if_track trk seedTracks = Some i -> seedTracks !! i = Some trk.
Proof.
  unfold find_if_track. intros H. apply fmap_Some in H as [[j x] [Hf ->]].
  apply list_find_Some in Hf as (Hl & <- & _). exact Hl.
Qed.

Lemma maxCompatibilityTrack_inv
    links vtx seedTracks (fs : FitterState') visited acc :
  forallb (fun trk => bool_decide (is_Some (tracksAtVerticesMap fs !! (trk, vtx))))
          links = true ->
  maxCompatibility_inv fs vtx seedTracks visited acc ->
  exists acc',
    maxCompatibilityTrack links vtx seedTracks fs acc = Ok acc'
    /\ maxCompatibility_inv fs vtx seedTracks (visited ++ links) acc'.
Proof.
  revert visited acc. induction links as [|trk links IH]; intros visited acc Hpres Hinv.
  - exists acc. rewrite app_nil_r. auto.
  - simpl in Hpres. apply andb_true_iff in Hpres as [Htrk Hpres].
    destruct (tracksAtVerticesMap_at_present _ _ _ Htrk) as (t & Hlook & Hat).
    destruct acc as [[m it] rt]. cbn [maxCompatibilityTrack].
    rewrite Hat. cbn [mbind Outcome_bind].
    assert (Hc : vertexCompatibility t = compatibilityOf fs vtx trk).
    { unfold compatibilityOf. rewrite Hlook. reflexivity. }
    rewrite Hc. replace (visited ++ trk :: links) with ((visited ++ [trk]) ++ links)
      by (rewrite <- app_assoc; reflexivity).
    destruct (gtb (compatibilityOf fs vtx trk) m) eqn:Hgt;
      [destruct (find_if_track trk seedTracks) as [j|] eqn:Hfind|];
      apply IH; try exact Hpres; unfold gtb in *; cbn [maxCompatibility_inv] in *.
    + (* a new maximum *)
      split; [exact Hfind|]. split; [apply elem_of_app; right; left|].
      split; [reflexivity|].
      assert (Hpos : (0 <? compatibilityOf fs vtx trk)%float = true).
      { destruct it as [i|].
        - destruct Hinv as (_ & _ & _ & Hm & _). eapply ltb_trans; eassumption.
        - destruct Hinv as [-> _]. exact Hgt. }
      split; [exact Hpos|].
      intros t' [Ht'| ->%list_elem_of_singleton]%elem_of_app Hseed.
      * destruct it as [i|].
        -- destruct Hinv as (_ & _ & _ & _ & Hall).
           eapply not_ltb_mono; [apply Hall; assumption|exact Hgt].
        -- destruct Hinv as [-> Hall].
           eapply not_ltb_mono; [apply Hall; assumption|exact Hgt].
      * apply ltb_irrefl.
    + (* above the maximum but no seed track *)
      assert (Hnot : trk ∉ seedTracks).
      { intros Hin%find_if_track_Some. rewrite Hfind in Hin. destruct Hin; discriminate. }
      destruct it as [i|].
      * destruct Hinv as (H1 & H2 & H3 & H4 & Hall). repeat split; auto.
        -- apply elem_of_app; left; exact H2.
        -- intros t' [Ht'| ->%list_elem_of_singleton]%elem_of_app Hseed; [auto|contradiction].
      * destruct Hinv as [H1 Hall]. split; [exact H1|].
        intros t' [Ht'| ->%list_elem_of_singleton]%elem_of_app Hseed; [auto|contradiction].
    + (* not above the maximum *)
      destruct it as [i|].
      * destruct Hinv as (H1 & H2 & H3 & H4 & Hall). repeat split; auto.
        -- apply elem_of_app; left; exact H2.
        -- intros t' [Ht'| ->%list_elem_of_singleton]%elem_of_app Hseed; [auto|exact Hgt].
      * destruct Hinv as [-> Hall]. split; [reflexivity|].
        intros t' [Ht'| ->%list_elem_of_singleton]%elem_of_app Hseed; [auto|exact Hgt].
Qed.

Lemma closestTrackInZ_inv heap vtx geoCtx seedTracks visited tracks acc :
  seedTracks = visited ++ tracks ->
  closestTrack_inv ext heap vtx geoCtx seedTracks visited acc ->
  closestTrack_inv ext heap vtx geoCtx seedTracks seedTracks
    (closestTrackInZ ext tracks (length visited) (position_z (deref heap vtx)) geoCtx acc).
Proof.
  revert visited acc. induction tracks as [|trk tracks IH]; intros visited acc Hseed Hinv.
  - rewrite app_nil_r in Hseed. subst. exact Hinv.
  - destruct acc as [[d it] rt]. cbn [closestTrackInZ].
    fold (zDistance ext heap vtx geoCtx trk).
    assert (Hseed' : seedTracks = (visited ++ [trk]) ++ tracks)
      by (rewrite <- app_assoc; exact Hseed).
    assert (Hlen : S (length visited) = length (visited ++ [trk]))
      by (rewrite length_app; cbn; lia).
    rewrite Hlen.
    destruct (zDistance ext heap vtx geoCtx trk <? d)%float eqn:Hlt;
      apply IH; try exact Hseed'; cbn [closestTrack_inv] in *.
    + split.
      { rewrite Hseed. rewrite lookup_app_r by lia.
        replace (length visited - length visited)%nat with 0%nat by lia. reflexivity. }
      split; [reflexivity|].
      assert (Hmax : (zDistance ext heap vtx geoCtx trk <? DBL_MAX)%float = true).
      { destruct it as [i|].
        - destruct Hinv as (_ & _ & Hd & _). eapply ltb_trans; eassumption.
        - destruct Hinv as [-> _]. exact Hlt. }
      split; [exact Hmax|].
      intros t' [Ht'| ->%list_elem_of_singleton]%elem_of_app; [|apply ltb_irrefl].
      destruct (zDistance ext heap vtx geoCtx t' <? zDistance ext heap vtx geoCtx trk)%float
        eqn:E; [|reflexivity].
      pose proof (ltb_trans _ _ _ E Hlt) as Hcontra.
      destruct it as [i|].
      * destruct Hinv as (_ & _ & _ & Hall). rewrite (Hall _ Ht') in Hcontra. discriminate.
      * destruct Hinv as [-> Hall]. rewrite (Hall _ Ht') in Hcontra. discriminate.
    + destruct it as [i|].
      * destruct Hinv as (H1 & H2 & H3 & Hall). repeat split; auto.
        intros t' [Ht'| ->%list_elem_of_singleton]%elem_of_app; [auto|exact Hlt].
      * destruct Hinv as [-> Hall]. split; [reflexivity|].
        intros t' [Ht'| ->%list_elem_of_singleton]%elem_of_app; [auto|exact Hlt].
Qed.

Lemma maxCompatibilityTrack_ext links vtx seedTracks (fs fs0 : FitterState') acc :
  tracksAtVerticesMap fs = tracksAtVerticesMap fs0 ->
  maxCompatibilityTrack links vtx seedTracks fs acc
  = maxCompatibilityTrack links vtx seedTracks fs0 acc.
Proof.
  intros Hmap. revert acc. induction links as [|trk links IH]; intros [[m it] rt];
    cbn [maxCompatibilityTrack]; [reflexivity|].
  unfold tracksAtVerticesMap_at. rewrite Hmap.
  destruct (tracksAtVerticesMap fs0 !! (trk, vtx)) as [t|]; cbn [mbind Outcome_bind];
    [|reflexivity].
  destruct (gtb (vertexCompatibility t) m); [destruct (find_if_track trk seedTracks)|];
    apply IH.
Qed.

(** C6, amended: with the records of the linked tracks in place,
    [removeTrackIfIncompatible] returns, and
    - it erases from [seedTracks] and appends to [removedSeedTracks] a
      linked track still in [seedTracks] whose compatibility is above 0 and
      maximal among such tracks;
    - if there is none, it erases and records a seed track whose distance
      [|z − V.z|] is below [DBL_MAX] and minimal among the seed tracks;
    - it returns false, changing nothing, exactly when neither rule finds a
      track. This is the case when [seedTracks] is empty, and only then
      provided every seed track has a distance below [DBL_MAX]. *)
Theorem removeTrackIfIncompatible_spec
    vtx heap seedTracks (fs : FitterState') removedSeedTracks geoCtx :
  linksPresent fs vtx = true ->
  exists removed seedTracks' removedSeedTracks' fs',
    removeTrackIfIncompatible ext vtx heap seedTracks fs removedSeedTracks geoCtx
    = Ok (removed, seedTracks', removedSeedTracks', fs')
    /\ ((exists i trk,
           removed = true /\ seedTracks !! i = Some trk
           /\ seedTracks' = delete i seedTracks
           /\ removedSeedTracks' = removedSeedTracks ++ [trk]
           /\ maximalCompatibility fs vtx seedTracks trk)
        \/ (exists i trk,
              removed = true /\ seedTracks !! i = Some trk
              /\ seedTracks' = delete i seedTracks
              /\ removedSeedTracks' = removedSeedTracks ++ [trk]
              /\ noPositiveCompatibility fs vtx seedTracks
              /\ minimalZDistance ext heap vtx geoCtx seedTracks trk)
        \/ (removed = false /\ seedTracks' = seedTracks
            /\ removedSeedTracks' = removedSeedTracks
            /\ noPositiveCompatibility fs vtx seedTracks
            /\ noCloseTrack ext heap vtx geoCtx seedTracks))
    /\ (seedTracks = [] -> removed = false)
    /\ (removed = false ->
        (forall t, t ∈ seedTracks ->
           (zDistance ext heap vtx geoCtx t <? DBL_MAX)%float = true) ->
        seedTracks = []).
Proof.
  intros Hpres. unfold removeTrackIfIncompatible.
  unfold linksPresent in Hpres. unfold maximalCompatibility, noPositiveCompatibility.
  unfold linkedTracks in *.
  pose proof (vtxInfoMap_subscript_tracksAtVerticesMap fs vtx) as Hmap.
  destruct (vtxInfoMap_subscript fs vtx) as [info fs'] eqn:E. cbn [fst snd] in *.
  rewrite (maxCompatibilityTrack_ext _ _ _ _ fs _ Hmap).
  destruct (maxCompatibilityTrack_inv (trackLinks info) vtx seedTracks fs []
              (0%float, None, nullptr) Hpres) as ([[m it] rt] & -> & Hinv).
  { split; [reflexivity|]. intros t Ht. inversion Ht. }
  cbn [mbind Outcome_bind]. rewrite app_nil_l in Hinv. cbn [maxCompatibility_inv] in Hinv.
  destruct it as [i|].
  - destruct Hinv as (Hfind & Hin & -> & Hpos & Hall).
    pose proof (find_if_track_lookup _ _ _ Hfind) as Hlook.
    assert (Hseed : rt ∈ seedTracks) by (eapply list_elem_of_lookup_2; eauto).
    eexists _, _, _, _. split; [reflexivity|]. split; [|split].
    + left. exists i, rt. repeat split; auto.
    + intros ->. inversion Hseed.
    + discriminate.
  - destruct Hinv as [-> Hnone].
    pose proof (closestTrackInZ_inv heap vtx geoCtx seedTracks [] seedTracks
                  (DBL_MAX, None, rt) eq_refl) as Hinv2.
    cbn [length] in Hinv2.
    destruct (closestTrackInZ ext seedTracks 0 (position_z (deref heap vtx)) geoCtx
                (DBL_MAX, None, rt)) as [[d it2] rt2].
    cbn [closestTrack_inv] in Hinv2.
    destruct it2 as [i|].
    + destruct Hinv2 as (Hlook & -> & Hmax & Hall).
      { split; [reflexivity|]. intros t Ht. inversion Ht. }
      assert (Hseed : rt2 ∈ seedTracks) by (eapply list_elem_of_lookup_2; eauto).
      eexists _, _, _, _. split; [reflexivity|]. split; [|split].
      * right. left. exists i, rt2. repeat split; auto.
      * intros ->. inversion Hseed.
      * discriminate.
    + destruct Hinv2 as (_ & Hall).
      { split; [reflexivity|]. intros t Ht. inversion Ht. }
      eexists _, _, _, _. split; [reflexivity|]. split; [|split].
      * right. right. repeat split; auto.
      * reflexivity.
      * intros _ Hfin. destruct seedTracks as [|t l]; [reflexivity|].
        assert (Ht : t ∈ t :: l) by left.
        specialize (Hfin _ Ht). rewrite (Hall _ Ht) in Hfin. discriminate.
Qed.

(** ** The seed tracks shrink *)

Lemma length_delete_found (seedTracks : list InputTrack) trk i :
  find_if_track trk seedTracks = Some i ->
  S (length (delete i seedTracks)) = length seedTracks.
Proof.
  intros Hl%find_if_track_lookup.
  pose proof (lookup_lt_Some _ _ _ Hl).
  rewrite length_delete by (eexists; exact Hl). lia.
Qed.

Lemma removeCompatibleTracksFromSeedTracks_loop_length
    links vtx seedTracks (fs : FitterState') removed seedTracks' removed' :
  removeCompatibleTracksFromSeedTracks_loop m_cfg links vtx seedTracks fs removed
  = Ok (seedTracks', removed') ->
  (length seedTracks' <= length seedTracks)%nat.
Proof.
  revert seedTracks removed. induction links as [|trk links IH]; intros seedTracks removed.
  - cbn. intros [= <- <-]. lia.
  - cbn [removeCompatibleTracksFromSeedTracks_loop].
    destruct (tracksAtVerticesMap_at fs trk vtx) as [t|e|x];
      cbn [mbind Outcome_bind]; try discriminate.
    destruct (isCompatibleTrack m_cfg t); [|apply IH].
    destruct (find_if_track trk seedTracks) as [j|] eqn:Hfind; [|apply IH].
    intros H%IH. apply length_delete_found in Hfind. lia.
Qed.

(** A track counted by the check is erased by the removal that follows. *)
Lemma counted_track_is_removed
    links vtx seedTracks (fs : FitterState') useC n0 n isGood removed seedTracks' removed' :
  checkVertexAndCompatibleTracks_loop m_cfg links vtx seedTracks fs useC n0
  = Ok (n, isGood) ->
  n0 < n ->
  removeCompatibleTracksFromSeedTracks_loop m_cfg links vtx seedTracks fs removed
  = Ok (seedTracks', removed') ->
  (length seedTracks' < length seedTracks)%nat.
Proof.
  induction links as [|trk links IH].
  - cbn. intros [= <- <-]. lia.
  - cbn [checkVertexAndCompatibleTracks_loop removeCompatibleTracksFromSeedTracks_loop].
    destruct (tracksAtVerticesMap_at fs trk vtx) as [t|e|x];
      cbn [mbind Outcome_bind]; try discriminate.
    destruct (isCompatibleTrack m_cfg t); [|apply IH].
    destruct (find_if_track trk seedTracks) as [j|] eqn:Hfind; [|apply IH].
    intros _ _ H%removeCompatibleTracksFromSeedTracks_loop_length.
    apply length_delete_found in Hfind. lia.
Qed.

Lemma vtxInfoMap_subscript_again (fs : FitterState') vtx :
  vtxInfoMap_subscript (vtxInfoMap_subscript fs vtx).2 vtx
  = vtxInfoMap_subscript fs vtx.
Proof.
  unfold vtxInfoMap_subscript. destruct (vtxInfoMap fs !! vtx) as [info|] eqn:E;
    cbn [fst snd]; [rewrite E; reflexivity|].
  cbn [vtxInfoMap set_vtxInfoMap]. rewrite lookup_insert_eq. reflexivity.
Qed.

Lemma removeCompatibleTracksFromSeedTracks_shrinks
    vtx seedTracks (fs : FitterState') useC n isGood fs1 removed seedTracks' removed' fs2 :
  checkVertexAndCompatibleTracks m_cfg vtx seedTracks fs useC = Ok (n, isGood, fs1) ->
  0 < n ->
  removeCompatibleTracksFromSeedTracks m_cfg vtx seedTracks fs1 removed
  = Ok (seedTracks', removed', fs2) ->
  (length seedTracks' < length seedTracks)%nat.
Proof.
  unfold checkVertexAndCompatibleTracks, removeCompatibleTracksFromSeedTracks.
  pose proof (vtxInfoMap_subscript_again fs vtx) as Hagain.
  destruct (vtxInfoMap_subscript fs vtx) as [info fs'] eqn:E. cbn [fst snd] in Hagain.
  destruct (checkVertexAndCompatibleTracks_loop m_cfg (trackLinks info) vtx seedTracks
              fs' useC 0) as [[n' g']|e|x] eqn:Hcheck;
    cbn [mbind Outcome_bind]; try discriminate.
  intros [= -> -> <-] Hn. rewrite Hagain.
  destruct (removeCompatibleTracksFromSeedTracks_loop m_cfg (trackLinks info) vtx
              seedTracks fs' removed) as [[s' r']|e|x] eqn:Hrem;
    cbn [mbind Outcome_bind]; try discriminate.
  intros [= <- <- <-]. eapply counted_track_is_removed; eauto.
Qed.

Lemma maxCompatibilityTrack_iterator
    links vtx seedTracks (fs : FitterState') acc m it rt :
  maxCompatibilityTrack links vtx seedTracks fs acc = Ok (m, it, rt) ->
  (forall i, acc.1.2 = Some i -> (i < length seedTracks)%nat) ->
  forall i, it = Some i -> (i < length seedTracks)%nat.
Proof.
  revert acc. induction links as [|trk links IH]; intros [[m0 it0] rt0].
  - cbn. intros [= <- <- <-] H. exact H.
  - cbn [maxCompatibilityTrack].
    destruct (tracksAtVerticesMap_at fs trk vtx) as [t|e|x];
      cbn [mbind Outcome_bind]; try discriminate.
    destruct (gtb (vertexCompatibility t) m0); [|apply IH].
    destruct (find_if_track trk seedTracks) as [j|] eqn:Hfind; [|apply IH].
    intros Hrec _. apply (IH _ Hrec). cbn. intros i [= <-].
    apply find_if_track_lookup in Hfind. eapply lookup_lt_Some; eauto.
Qed.

Lemma closestTrackInZ_iterator tracks i0 vtxZ geoCtx acc :
  (forall i, acc.1.2 = Some i -> (i < i0 + length tracks)%nat) ->
  forall i, (closestTrackInZ ext tracks i0 vtxZ geoCtx acc).1.2 = Some i ->
            (i < i0 + length tracks)%nat.
Proof.
  revert i0 acc. induction tracks as [|trk tracks IH]; intros i0 [[d it] rt] Hacc.
  - exact Hacc.
  - cbn [closestTrackInZ length].
    destruct (_ <? d)%float; intros i Hi; apply IH in Hi; try lia; cbn.
    + intros k [= <-]. lia.
    + intros k Hk. specialize (Hacc k Hk). cbn in Hacc. lia.
Qed.

(** [removeTrackIfIncompatible] erases exactly one seed track, or reports
    that it erased none. *)
Lemma removeTrackIfIncompatible_length
    vtx heap seedTracks (fs : FitterState') removed geoCtx b seedTracks' removed' fs' :
  removeTrackIfIncompatible ext vtx heap seedTracks fs removed geoCtx
  = Ok (b, seedTracks', removed', fs') ->
  (b = true /\ S (length seedTracks') = length seedTracks)
  \/ (b = false /\ seedTracks' = seedTracks).
Proof.
  unfold removeTrackIfIncompatible.
  destruct (vtxInfoMap_subscript fs vtx) as [info fs1].
  destruct (maxCompatibilityTrack (trackLinks info) vtx seedTracks fs1
              (0%float, None, nullptr)) as [[[m it] rt]|e|x] eqn:Hmax;
    cbn [mbind Outcome_bind]; try discriminate.
  pose proof (maxCompatibilityTrack_iterator _ _ _ _ _ _ _ _ Hmax) as Hit.
  destruct it as [i|].
  - intros [= <- <- <- <-]. left. split; [reflexivity|].
    assert (i < length seedTracks)%nat by (apply Hit; [discriminate|reflexivity]).
    rewrite length_delete by (apply lookup_lt_is_Some; assumption). lia.
  - pose proof (closestTrackInZ_iterator seedTracks 0
                  (position_z (deref heap vtx)) geoCtx (DBL_MAX, None, rt)) as Hit2.
    destruct (closestTrackInZ ext seedTracks 0 (position_z (deref heap vtx)) geoCtx
                (DBL_MAX, None, rt)) as [[d it2] rt2].
    destruct it2 as [i|].
    + intros [= <- <- <- <-]. left. split; [reflexivity|].
      assert (i < length seedTracks)%nat by (apply Hit2; [discriminate|reflexivity]).
      rewrite length_delete by (apply lookup_lt_is_Some; assumption). lia.
    + intros [= <- <- <- <-]. right. auto.
Qed.

Lemma elem_of_delete_other (l : list InputTrack) j x t :
  l !! j = Some x -> t <> x -> t ∈ l -> t ∈ delete j l.
Proof.
  revert j. induction l as [|a l IH]; intros j Hj Hne Hin; [inversion Hin|].
  destruct j as [|j]; cbn in *.
  - injection Hj as ->. apply elem_of_cons in Hin as [->|Hin]; [congruence|exact Hin].
  - apply elem_of_cons in Hin as [->|Hin]; [left|right; eapply IH; eauto].
Qed.

(** With no track linked twice, every linked track that is classified
    compatible and present in [seedTracks] is found by the removal. *)
Lemma removeCompatibleTracksFromSeedTracks_loop_all
    links vtx seedTracks (fs : FitterState') removed seedTracks' removed' :
  NoDup links ->
  removeCompatibleTracksFromSeedTracks_loop m_cfg links vtx seedTracks fs removed
  = Ok (seedTracks', removed') ->
  (forall t, t ∈ removed -> t ∈ removed')
  /\ forall t, t ∈ links -> compatibleInSeed m_cfg fs vtx seedTracks t = true ->
       t ∈ removed'.
Proof.
  revert seedTracks removed. induction links as [|trk links IH];
    intros seedTracks removed Hnd.
  - cbn. intros [= <- <-]. split; [auto|]. intros t Ht. inversion Ht.
  - apply NoDup_cons in Hnd as [Hnotin Hnd].
    cbn [removeCompatibleTracksFromSeedTracks_loop]. unfold tracksAtVerticesMap_at.
    destruct (tracksAtVerticesMap fs !! (trk, vtx)) as [t0|] eqn:Hlook;
      cbn [mbind Outcome_bind]; try discriminate.
    assert (Hc : compatibleInSeed m_cfg fs vtx seedTracks trk
                 = isCompatibleTrack m_cfg t0
                   && match find_if_track trk seedTracks with
                      | Some _ => true | None => false end).
    { unfold compatibleInSeed. rewrite Hlook, find_if_track_bool_decide. reflexivity. }
    destruct (isCompatibleTrack m_cfg t0);
      [destruct (find_if_track trk seedTracks) as [j|] eqn:Hfind|];
      intros Hrec; destruct (IH _ _ Hnd Hrec) as [Hmono Hall]; cbn [andb] in Hc.
    + split.
      * intros t Ht. apply Hmono, elem_of_app. left. exact Ht.
      * intros t [->|Ht]%elem_of_cons Hcomp.
        -- apply Hmono, elem_of_app. right. left.
        -- apply Hall; [exact Ht|]. unfold compatibleInSeed in *.
           destruct (tracksAtVerticesMap fs !! (t, vtx)); [|discriminate].
           apply andb_true_iff in Hcomp as [-> Hin%bool_decide_eq_true].
           apply bool_decide_eq_true.
           eapply elem_of_delete_other; eauto using find_if_track_lookup.
           intros ->. contradiction.
    + split; [exact Hmono|].
      intros t [->|Ht]%elem_of_cons Hcomp; [congruence|auto].
    + split; [exact Hmono|].
      intros t [->|Ht]%elem_of_cons Hcomp; [congruence|auto].
Qed.

Lemma removeCompatibleTracksFromSeedTracks_all
    vtx seedTracks (fs : FitterState') removed seedTracks' removed' fs2 :
  NoDup (linkedTracks fs vtx) ->
  removeCompatibleTracksFromSeedTracks m_cfg vtx seedTracks
    (vtxInfoMap_subscript fs vtx).2 removed
  = Ok (seedTracks', removed', fs2) ->
  forall t, t ∈ linkedTracks fs vtx ->
    compatibleInSeed m_cfg fs vtx seedTracks t = true -> t ∈ removed'.
Proof.
  unfold removeCompatibleTracksFromSeedTracks, linkedTracks.
  rewrite vtxInfoMap_subscript_again.
  pose proof (vtxInfoMap_subscript_tracksAtVerticesMap fs vtx) as Hmap.
  destruct (vtxInfoMap_subscript fs vtx) as [info fs1]. cbn [fst snd] in *.
  intros Hnd.
  destruct (removeCompatibleTracksFromSeedTracks_loop m_cfg (trackLinks info) vtx
              seedTracks fs1 removed) as [[s' r']|e|x] eqn:Hrem;
    cbn [mbind Outcome_bind]; try discriminate.
  intros [= <- <- <-] t Ht Hcomp.
  eapply (proj2 (removeCompatibleTracksFromSeedTracks_loop_all _ _ _ _ _ _ _ Hnd Hrem));
    [exact Ht|].
  unfold compatibleInSeed in *. rewrite Hmap. exact Hcomp.
Qed.

(** ** One iteration of the driver loop *)

Lemma pop_back_snoc {A} (l : list A) x : pop_back (l ++ [x]) = Ok l.
Proof.
  unfold pop_back. rewrite removelast_last. destruct l; reflexivity.
Qed.

Lemma unique_pop_back_snoc l p (heap : gmap VertexPtr (@Vertex BoundTrackParameters)) :
  unique_pop_back (l ++ [p]) heap = Ok (l, delete p heap).
Proof. unfold unique_pop_back. rewrite last_snoc, removelast_last. reflexivity. Qed.

Lemma breakLoop_snoc seedTracks removed allVertices allVerticesPtr vtx
    (fs : FitterState') (sfs : SeedFinderState) heap iteration :
  breakLoop seedTracks removed (allVertices ++ [vtx]) (allVerticesPtr ++ [vtx])
            fs sfs heap iteration
  = Ok (Break (mkFinderState seedTracks removed allVertices allVerticesPtr fs sfs
                 (delete vtx heap) iteration)).
Proof.
  unfold breakLoop. rewrite unique_pop_back_snoc. cbn [mbind Outcome_bind].
  rewrite pop_back_snoc. reflexivity.
Qed.

Lemma deleteLastVertex_pops vtx allVertices p allVerticesPtr q heap
    (fs : FitterState') opts allVertices' allVerticesPtr' heap' fs' :
  deleteLastVertex ext m_cfg vtx (allVertices ++ [p]) (allVerticesPtr ++ [q]) heap fs opts
  = Ok (allVertices', allVerticesPtr', heap', fs') ->
  allVertices' = allVertices /\ allVerticesPtr' = allVerticesPtr.
Proof.
  unfold deleteLastVertex. rewrite unique_pop_back_snoc. cbn [mbind Outcome_bind].
  rewrite pop_back_snoc. cbn [mbind Outcome_bind].
  destruct (removeVertexFromCollection ext _ vtx) as [fs1|e|x];
    cbn [mbind Outcome_bind]; try discriminate.
  cbn [vertexCollection set_tracksAtVerticesMap].
  destruct (vertexCollection fs1); [intros [= <- <- _ _]; auto|].
  destruct (vertexFitter_fit m_cfg _ _ opts) as [[fs2 h2]|e|x];
    cbn [mbind Outcome_bind]; try discriminate.
  intros [= <- <- _ _]; auto.
Qed.

Lemma keepOrDelete_step vtx isGood opts seedTracks removed allVertices allVerticesPtr
    (fs : FitterState') (sfs : SeedFinderState) heap iteration step :
  keepOrDelete ext m_cfg vtx isGood opts seedTracks removed
    (allVertices ++ [vtx]) (allVerticesPtr ++ [vtx]) fs sfs heap iteration = Ok step ->
  exists st',
    step = Continue st'
    /\ st_seedTracks st' = seedTracks
    /\ st_iteration st' = iteration + 1
    /\ (st_allVerticesPtr st' = allVerticesPtr
        \/ st_allVerticesPtr st' = allVerticesPtr ++ [vtx]).
Proof.
  unfold keepOrDelete.
  destruct (if isGood then _ else _) as [[keep fs1]|e|x];
    cbn [mbind Outcome_bind]; try discriminate.
  destruct keep; cbn [negb mbind Outcome_bind].
  - intros [= <-]. eexists. split; [reflexivity|]. cbn. auto.
  - destruct (deleteLastVertex ext m_cfg vtx _ _ heap fs1 opts)
      as [[[[av avp] h] fs2]|e|x] eqn:Hdel; cbn [mbind Outcome_bind]; try discriminate.
    apply deleteLastVertex_pops in Hdel as [-> ->].
    intros [= <-]. eexists. split; [reflexivity|]. cbn. auto.
Qed.

Lemma find_iteration_step origTracks opts (st : FinderState) step :
  find_iteration ext m_cfg origTracks opts st = Ok step -> stepFrom st step.
Proof.
  unfold find_iteration.
  destruct (doSeeding ext m_cfg _ _ opts _ _) as [[[seedVertex cc] sfs]|e|x];
    cbn [mbind Outcome_bind]; try discriminate.
  set (vtx := allocate ext (st_heap st)).
  destruct (_ =? _)%float.
  { rewrite breakLoop_snoc. intros [= <-]. cbn. auto. }
  destruct (canPrepareVertexForFit ext m_cfg _ _ vtx _ cc _ opts)
    as [[[prep fs1] h1]|e|x]; cbn [mbind Outcome_bind]; try discriminate.
  destruct prep; cbn [negb].
  2: { rewrite breakLoop_snoc. intros [= <-]. cbn. auto. }
  destruct (vertexFitter_addVtxToFit m_cfg _ h1 vtx opts) as [[fs2 h2]|e|x];
    cbn [mbind Outcome_bind]; try discriminate.
  destruct (checkVertexAndCompatibleTracks m_cfg vtx (st_seedTracks st) fs2 _)
    as [[[n isGood] fs3]|e|x] eqn:Hcheck; cbn [mbind Outcome_bind]; try discriminate.
  destruct (0 <? n) eqn:Hn.
  - apply Z.ltb_lt in Hn.
    destruct (removeCompatibleTracksFromSeedTracks m_cfg vtx (st_seedTracks st) fs3 [])
      as [[[seedTracks' removed'] fs4]|e|x] eqn:Hrem;
      cbn [mbind Outcome_bind]; try discriminate.
    intros (st' & -> & Hseed & Hit & Hptr)%keepOrDelete_step. cbn.
    rewrite Hseed, Hit. split; [destruct Hptr; eauto|]. split; [reflexivity|].
    eapply removeCompatibleTracksFromSeedTracks_shrinks; eauto.
  - destruct (removeTrackIfIncompatible ext vtx h2 (st_seedTracks st) fs3 [] _)
      as [[[[b seedTracks'] removed'] fs4]|e|x] eqn:Hrem;
      cbn [mbind Outcome_bind]; try discriminate.
    apply removeTrackIfIncompatible_length in Hrem as [[-> Hlen]|[-> ->]]; cbn [negb].
    + intros (st' & -> & Hseed & Hit & Hptr)%keepOrDelete_step. cbn.
      rewrite Hseed, Hit. split; [destruct Hptr; eauto|]. split; [reflexivity|]. lia.
    + rewrite breakLoop_snoc. intros [= <-]. cbn. auto.
Qed.

(** ** The driver loop *)

Lemma loopCondition_seedTracks (st : FinderState) :
  loopCondition m_cfg st = true -> st_seedTracks st <> [].
Proof.
  unfold loopCondition. destruct (st_seedTracks st); [|discriminate].
  destruct (addSingleTrackVertices m_cfg); discriminate.
Qed.

Lemma loopCondition_iteration (st : FinderState) :
  loopCondition m_cfg st = true -> st_iteration st < maxIterations m_cfg.
Proof.
  unfold loopCondition. intros [_ H]%andb_true_iff. apply Z.ltb_lt, H.
Qed.

(** The fuel [find] hands to the loop never runs out: from
    [maxIterations - iteration] on, more fuel changes nothing. *)
Lemma find_fuel_enough fuel origTracks opts (st : FinderState) :
  (Z.to_nat (maxIterations m_cfg - st_iteration st) <= fuel)%nat ->
  find_loop ext m_cfg (S fuel) origTracks opts st
  = find_loop ext m_cfg fuel origTracks opts st.
Proof.
  revert st. induction fuel as [|fuel IH]; intros st Hfuel.
  - cbn [find_loop]. destruct (loopCondition m_cfg st) eqn:Hc; [|reflexivity].
    apply loopCondition_iteration in Hc. lia.
  - change (find_loop ext m_cfg (S (S fuel)) origTracks opts st)
      with (if loopCondition m_cfg st
            then step ← find_iteration ext m_cfg origTracks opts st;
                 match step with
                 | Break st' => Ok st'
                 | Continue st' => find_loop ext m_cfg (S fuel) origTracks opts st'
                 end
            else Ok st).
    cbn [find_loop]. destruct (loopCondition m_cfg st) eqn:Hc; [|reflexivity].
    destruct (find_iteration ext m_cfg origTracks opts st) as [[st'|st']|e|x] eqn:Hstep;
      cbn [mbind Outcome_bind]; try reflexivity.
    apply find_iteration_step in Hstep as (_ & Hit & _).
    apply IH. lia.
Qed.

Lemma find_loop_fuel_irrelevant fuel k origTracks opts (st : FinderState) :
  (Z.to_nat (maxIterations m_cfg - st_iteration st) <= fuel)%nat ->
  find_loop ext m_cfg (fuel + k) origTracks opts st
  = find_loop ext m_cfg fuel origTracks opts st.
Proof.
  intros Hfuel. induction k as [|k IH].
  - rewrite Nat.add_0_r. reflexivity.
  - rewrite Nat.add_succ_r, find_fuel_enough by lia. exact IH.
Qed.

(** The loop is over after as many iterations as there are seed tracks,
    whatever [maxIterations] is. *)
Lemma find_loop_seedTracks_fuel fuel origTracks opts (st : FinderState) :
  (length (st_seedTracks st) <= fuel)%nat ->
  find_loop ext m_cfg (S fuel) origTracks opts st
  = find_loop ext m_cfg fuel origTracks opts st.
Proof.
  revert st. induction fuel as [|fuel IH]; intros st Hfuel.
  - cbn [find_loop]. destruct (loopCondition m_cfg st) eqn:Hc; [|reflexivity].
    apply loopCondition_seedTracks in Hc. destruct (st_seedTracks st); [congruence|].
    cbn in Hfuel. lia.
  - change (find_loop ext m_cfg (S (S fuel)) origTracks opts st)
      with (if loopCondition m_cfg st
            then step ← find_iteration ext m_cfg origTracks opts st;
                 match step with
                 | Break st' => Ok st'
                 | Continue st' => find_loop ext m_cfg (S fuel) origTracks opts st'
                 end
            else Ok st).
    cbn [find_loop]. destruct (loopCondition m_cfg st) eqn:Hc; [|reflexivity].
    destruct (find_iteration ext m_cfg origTracks opts st) as [[st'|st']|e|x] eqn:Hstep;
      cbn [mbind Outcome_bind]; try reflexivity.
    apply find_iteration_step in Hstep as (_ & _ & Hlen).
    apply IH. lia.
Qed.

Lemma find_loop_iterations fuel origTracks opts (st st' : FinderState) :
  find_loop ext m_cfg fuel origTracks opts st = Ok st' ->
  st_iteration st <= st_iteration st'
  /\ st_iteration st' <= st_iteration st + Z.of_nat (length (st_seedTracks st))
  /\ (length (st_allVerticesPtr st) <= length (st_allVerticesPtr st'))%nat.
Proof.
  revert st. induction fuel as [|fuel IH]; intros st; cbn [find_loop];
    (destruct (loopCondition m_cfg st); [|intros [= <-]; lia]); [discriminate|].
  destruct (find_iteration ext m_cfg origTracks opts st) as [[st1|st1]|e|x] eqn:Hstep;
    cbn [mbind Outcome_bind]; try discriminate;
    apply find_iteration_step in Hstep; cbn [stepFrom] in Hstep.
  - intros [= <-]. destruct Hstep as [-> ->]. lia.
  - intros (H1 & H2 & H3)%IH. destruct Hstep as (Hptr & Hit & Hlen).
    split; [lia|]. split; [lia|].
    destruct Hptr as [Heq|[v Heq]]; rewrite Heq in H3; [exact H3|].
    rewrite length_app in H3. cbn in H3. lia.
Qed.

Lemma getVertexOutputList_length ptrs heap (fs : FitterState') out :
  getVertexOutputList ptrs heap fs = Ok out -> length out = length ptrs.
Proof.
  revert heap fs out. induction ptrs as [|vtx ptrs IH]; intros heap fs out.
  - cbn. intros [= <-]. reflexivity.
  - cbn [getVertexOutputList].
    destruct (vtxInfoMap_subscript fs vtx) as [info fs1].
    destruct (tracksAtVertexOf (trackLinks info) vtx fs1) as [tracks|e|x];
      cbn [mbind Outcome_bind]; try discriminate.
    destruct (getVertexOutputList ptrs _ fs1) as [rest|e|x] eqn:Hrest;
      cbn [mbind Outcome_bind]; try discriminate.
    intros [= <-]. cbn. f_equal. eapply IH, Hrest.
Qed.

Lemma doSeeding_of_seedFinderCall opts (st : FinderState) seeds sfs' seedVertex :
  seedFinderCall ext m_cfg opts st = Ok (seeds, sfs') ->
  last seeds = Some seedVertex ->
  exists seedVertex' currentConstraint,
    doSeeding ext m_cfg (st_seedTracks st) (constraint opts) opts
      (st_seedFinderState st) (st_removedSeedTracks st)
    = Ok (seedVertex', currentConstraint, sfs')
    /\ fullPosition seedVertex' = fullPosition seedVertex.
Proof.
  unfold seedFinderCall, doSeeding. intros -> Hlast. cbn [mbind Outcome_bind].
  rewrite Hlast. unfold setConstraintAfterSeeding.
  destruct (useConstraintInFit _); [destruct (negb _)|]; eexists _, _; split;
    reflexivity.
Qed.

(** C7: in any state in which the loop goes on, if the seed finder returns
    (as its last vertex) one whose z equals the z of the constraint of the
    vertexing options, the loop ends there: the candidate is popped again
    and freed, nothing is prepared or fitted (the fitter state is
    untouched), no accepted vertex is popped, and [find] returns what
    [getVertexOutputList] makes of the vertices accepted so far. *)
Theorem find_stops_without_seed
    fuel origTracks opts (st : FinderState) seeds sfs' seedVertex :
  loopCondition m_cfg st = true ->
  seedFinderCall ext m_cfg opts st = Ok (seeds, sfs') ->
  last seeds = Some seedVertex ->
  (position_z seedVertex =? position_z (constraint opts))%float = true ->
  st_heap st !! allocate ext (st_heap st) = None ->
  find_loop ext m_cfg (S fuel) origTracks opts st = Ok (set_seedFinderState sfs' st)
  /\ (st' ← find_loop ext m_cfg (S fuel) origTracks opts st; outputOf st')
     = outputOf st.
Proof.
  intros Hcond Hcall Hlast Hz Hfresh.
  assert (Hloop : find_loop ext m_cfg (S fuel) origTracks opts st
                  = Ok (set_seedFinderState sfs' st)).
  { cbn [find_loop]. rewrite Hcond. unfold find_iteration.
    destruct (doSeeding_of_seedFinderCall _ _ _ _ _ Hcall Hlast)
      as (sv' & cc & -> & Hpos).
    cbn [mbind Outcome_bind]. unfold deref. rewrite lookup_insert_eq.
    change (default Vertex_default (Some sv')) with sv'.
    unfold position_z in *. rewrite Hpos, Hz, breakLoop_snoc.
    cbn [mbind Outcome_bind]. rewrite delete_insert_id by exact Hfresh. reflexivity. }
  split; [exact Hloop|]. rewrite Hloop. reflexivity.
Qed.

(** C8: on an empty list of tracks [find] returns the error [EmptyInput],
    before any state is set up and before the loop. *)
Theorem find_empty_input (opts : VertexingOptions) :
  find ext m_cfg [] opts = Failure EmptyInput.
Proof. reflexivity. Qed.

(** C10: an iteration that reaches its end has strictly fewer seed tracks
    than it started with, and one more on the counter: after a positive
    count the removal of the compatible tracks erases at least one seed
    track (the first track that was counted is found again), and
    [removeTrackIfIncompatible] erases exactly one or reports false, upon
    which the driver breaks; where no track is linked twice, every linked
    track that is classified compatible and present in [seedTracks] at the
    check is found by the removal and moved to [removedSeedTracks]. Hence
    the counter grows by at most the number of seed tracks, and the loop
    needs no more iterations than there are seed tracks, whatever
    [maxIterations] is. *)
Theorem iteration_erases_seed_track :
  (forall origTracks opts (st st' : FinderState),
     find_iteration ext m_cfg origTracks opts st = Ok (Continue st') ->
     (length (st_seedTracks st') < length (st_seedTracks st))%nat
     /\ st_iteration st' = st_iteration st + 1)
  /\ (forall vtx seedTracks (fs : FitterState') useC n isGood fs1
             removed seedTracks' removed' fs2,
        checkVertexAndCompatibleTracks m_cfg vtx seedTracks fs useC = Ok (n, isGood, fs1) ->
        0 < n ->
        removeCompatibleTracksFromSeedTracks m_cfg vtx seedTracks fs1 removed
        = Ok (seedTracks', removed', fs2) ->
        (length seedTracks' < length seedTracks)%nat)
  /\ (forall vtx seedTracks (fs : FitterState') useC n isGood fs1
             removed seedTracks' removed' fs2,
        checkVertexAndCompatibleTracks m_cfg vtx seedTracks fs useC = Ok (n, isGood, fs1) ->
        removeCompatibleTracksFromSeedTracks m_cfg vtx seedTracks fs1 removed
        = Ok (seedTracks', removed', fs2) ->
        NoDup (linkedTracks fs vtx) ->
        forall trk, trk ∈ linkedTracks fs vtx ->
          compatibleInSeed m_cfg fs vtx seedTracks trk = true -> trk ∈ removed')
  /\ (forall vtx heap seedTracks (fs : FitterState') removed geoCtx
             b seedTracks' removed' fs',
        removeTrackIfIncompatible ext vtx heap seedTracks fs removed geoCtx
        = Ok (b, seedTracks', removed', fs') ->
        (b = true /\ S (length seedTracks') = length seedTracks)
        \/ (b = false /\ seedTracks' = seedTracks))
  /\ (forall fuel origTracks opts (st st' : FinderState),
        find_loop ext m_cfg fuel origTracks opts st = Ok st' ->
        st_iteration st' <= st_iteration st + Z.of_nat (length (st_seedTracks st)))
  /\ (forall fuel allTracks opts,
        (length allTracks <= fuel)%nat ->
        find_loop ext m_cfg fuel allTracks opts (initialState ext allTracks opts)
        = find_loop ext m_cfg (length allTracks) allTracks opts
            (initialState ext allTracks opts)).
Proof.
  split; [|split; [|split; [|split; [|split]]]].
  - intros origTracks opts st st' H%find_iteration_step. cbn in H. tauto.
  - intros. eapply removeCompatibleTracksFromSeedTracks_shrinks; eauto.
  - intros vtx seedTracks fs useC n isGood fs1 removed seedTracks' removed' fs2
           Hcheck Hrem Hnd.
    assert (fs1 = (vtxInfoMap_subscript fs vtx).2) as ->.
    { unfold checkVertexAndCompatibleTracks in Hcheck.
      destruct (vtxInfoMap_subscript fs vtx) as [info fs0].
      destruct (checkVertexAndCompatibleTracks_loop _ _ _ _ _ _ _) as [[n' g']|e|x];
        cbn [mbind Outcome_bind] in Hcheck; try discriminate.
      injection Hcheck as _ _ <-. reflexivity. }
    eapply removeCompatibleTracksFromSeedTracks_all; eauto.
  - intros. eapply removeTrackIfIncompatible_length; eauto.
  - intros fuel origTracks opts st st' H%find_loop_iterations. tauto.
  - intros fuel allTracks opts Hfuel.
    induction Hfuel as [|fuel Hle IH]; [reflexivity|].
    rewrite find_loop_seedTracks_fuel; [exact IH|exact Hle].
Qed.

End Properties.

(** ** Lowering [maxIterations] *)

Section MaxIterations.

Context {BoundTrackParameters GeometryContext MagneticFieldContext : Type}.
Context {SeedFinderState FitterInternals : Type}.

Variable ext : @Externals BoundTrackParameters GeometryContext MagneticFieldContext
                          SeedFinderState FitterInternals.

Abbreviation Config' :=
  (@Config BoundTrackParameters GeometryContext MagneticFieldContext
           SeedFinderState FitterInternals).

(** The body of the loop does not read [maxIterations]. *)
Lemma find_iteration_with_maxIterations n (cfg : Config') origTracks opts st :
  find_iteration ext (with_maxIterations n cfg) origTracks opts st
  = find_iteration ext cfg origTracks opts st.
Proof. reflexivity. Qed.

Lemma loopCondition_with_maxIterations n (cfg : Config') (st : FinderState) :
  maxIterations cfg <= n ->
  loopCondition cfg st = true -> loopCondition (with_maxIterations n cfg) st = true.
Proof.
  unfold loopCondition. cbn [addSingleTrackVertices maxIterations with_maxIterations].
  intros Hn [-> Hit%Z.ltb_lt]%andb_true_iff. apply Z.ltb_lt. lia.
Qed.

(** With a larger [maxIterations] the loop goes through the same states
    and possibly further; the accepted vertices only grow in number. *)
Lemma find_loop_with_maxIterations n (cfg : Config') fuel1 fuel2 origTracks opts
    (st st1 st2 : FinderState) :
  maxIterations cfg <= n ->
  find_loop ext cfg fuel1 origTracks opts st = Ok st1 ->
  find_loop ext (with_maxIterations n cfg) fuel2 origTracks opts st = Ok st2 ->
  (length (st_allVerticesPtr st1) <= length (st_allVerticesPtr st2))%nat.
Proof.
  intros Hn. revert fuel2 st. induction fuel1 as [|fuel1 IH]; intros fuel2 st;
    cbn [find_loop]; destruct (loopCondition cfg st) eqn:Hc.
  - discriminate.
  - intros [= <-] H2%find_loop_iterations. tauto.
  - apply (loopCondition_with_maxIterations n) in Hc; [|exact Hn].
    destruct fuel2 as [|fuel2]; cbn [find_loop]; rewrite Hc; [discriminate|].
    rewrite find_iteration_with_maxIterations.
    destruct (find_iteration ext cfg origTracks opts st) as [[st'|st']|e|x];
      cbn [mbind Outcome_bind]; try discriminate.
    + intros [= <-] [= <-]. lia.
    + apply IH.
  - intros [= <-] H2%find_loop_iterations. tauto.
Qed.

(** C9: of two configurations that differ only in [maxIterations], run on
    the same tracks with the same collaborators, the one with the smaller
    [maxIterations] returns at most as many vertices as the other,
    whenever both runs return a list of vertices. *)
Theorem find_maxIterations_monotone (cfg1 cfg2 : Config') allTracks opts out1 out2 :
  with_maxIterations (maxIterations cfg2) cfg1 = cfg2 ->
  maxIterations cfg1 <= maxIterations cfg2 ->
  find ext cfg1 allTracks opts = Ok out1 ->
  find ext cfg2 allTracks opts = Ok out2 ->
  (length out1 <= length out2)%nat.
Proof.
  intros <- Hle. unfold find. destruct allTracks as [|trk allTracks]; [discriminate|].
  destruct (find_loop ext cfg1 _ _ opts _) as [st1|e|x] eqn:H1;
    cbn [mbind Outcome_bind]; try discriminate.
  destruct (find_loop ext (with_maxIterations _ cfg1) _ _ opts _) as [st2|e|x] eqn:H2;
    cbn [mbind Outcome_bind]; try discriminate.
  intros Ho1%getVertexOutputList_length Ho2%getVertexOutputList_length.
  rewrite Ho1, Ho2. eapply find_loop_with_maxIterations; eauto.
Qed.

End MaxIterations.


(** * Further properties of the finder

    Properties of the methods read off the source: what the preparation of
    a candidate establishes, how tracks move between the working sets, what
    the driver keeps invariant and how it ends. *)

Section Coverage.

Context {BoundTrackParameters GeometryContext MagneticFieldContext : Type}.
Context {SeedFinderState FitterInternals : Type}.

Abbreviation Config' :=
  (@Config BoundTrackParameters GeometryContext MagneticFieldContext
           SeedFinderState FitterInternals).
Abbreviation Externals' :=
  (@Externals BoundTrackParameters GeometryContext MagneticFieldContext
              SeedFinderState FitterInternals).
Abbreviation FitterState' := (@FitterState BoundTrackParameters FitterInternals).

Variable ext : Externals'.
Variable m_cfg : Config'.

(** ** Tracks move from [seedTracks] to [removedSeedTracks] *)

Lemma removeCompatibleTracksFromSeedTracks_loop_moves
    links vtx seedTracks (fs : FitterState') removed seedTracks' removed' :
  removeCompatibleTracksFromSeedTracks_loop m_cfg links vtx seedTracks fs removed
  = Ok (seedTracks', removed') ->
  exists moved,
    removed' = removed ++ moved
    /\ seedTracks ≡ₚ seedTracks' ++ moved
    /\ seedTracks' `sublist_of` seedTracks
    /\ forall t, t ∈ moved -> t ∈ links.
Proof.
  revert seedTracks removed. induction links as [|trk links IH]; intros seedTracks removed.
  - cbn. intros [= <- <-]. exists []. rewrite !app_nil_r.
    split; [reflexivity|]. split; [reflexivity|]. split; [reflexivity|].
    intros t Ht. inversion Ht.
  - cbn [removeCompatibleTracksFromSeedTracks_loop].
    destruct (tracksAtVerticesMap_at fs trk vtx) as [t0|e|x];
      cbn [mbind Outcome_bind]; try discriminate.
    assert (Hskip : removeCompatibleTracksFromSeedTracks_loop m_cfg links vtx seedTracks
                      fs removed = Ok (seedTracks', removed') ->
                    exists moved, removed' = removed ++ moved
                      /\ seedTracks ≡ₚ seedTracks' ++ moved
                      /\ seedTracks' `sublist_of` seedTracks
                      /\ forall t, t ∈ moved -> t ∈ trk :: links).
    { intros (moved & H1 & H2 & H3 & H4)%IH. exists moved. repeat split; auto.
      intros t Ht. right. auto. }
    destruct (isCompatibleTrack m_cfg t0); [|exact Hskip].
    destruct (find_if_track trk seedTracks) as [j|] eqn:Hfind; [|exact Hskip].
    clear Hskip. intros (moved & H1 & H2 & H3 & H4)%IH.
    apply find_if_track_lookup in Hfind.
    exists (trk :: moved). split; [rewrite H1, <- app_assoc; reflexivity|].
    split.
    { rewrite (delete_Permutation _ _ _ Hfind), H2. apply Permutation_middle. }
    split; [etransitivity; [exact H3|apply sublist_delete]|].
    intros t [->|Ht]%elem_of_cons; [left|right; auto].
Qed.

(** X1: The removal of the compatible tracks only moves tracks: what leaves
    [seedTracks] is appended to [removedSeedTracks] and is a linked track
    of the vertex, and what stays keeps its order. *)
Theorem removeCompatibleTracksFromSeedTracks_moves
    vtx seedTracks (fs : FitterState') removed seedTracks' removed' fs' :
  removeCompatibleTracksFromSeedTracks m_cfg vtx seedTracks fs removed
  = Ok (seedTracks', removed', fs') ->
  exists moved,
    removed' = removed ++ moved
    /\ seedTracks ≡ₚ seedTracks' ++ moved
    /\ seedTracks' `sublist_of` seedTracks
    /\ forall t, t ∈ moved -> t ∈ linkedTracks fs vtx.
Proof.
  unfold removeCompatibleTracksFromSeedTracks, linkedTracks.
  destruct (vtxInfoMap_subscript fs vtx) as [info fs1]. cbn [fst].
  destruct (removeCompatibleTracksFromSeedTracks_loop m_cfg (trackLinks info) vtx
              seedTracks fs1 removed) as [[s' r']|e|x] eqn:Hrem;
    cbn [mbind Outcome_bind]; try discriminate.
  intros [= <- <- <-]. eapply removeCompatibleTracksFromSeedTracks_loop_moves, Hrem.
Qed.

Lemma maxCompatibilityTrack_track
    links vtx seedTracks (fs : FitterState') acc m it rt :
  maxCompatibilityTrack links vtx seedTracks fs acc = Ok (m, it, rt) ->
  (forall i, acc.1.2 = Some i -> seedTracks !! i = Some acc.2) ->
  forall i, it = Some i -> seedTracks !! i = Some rt.
Proof.
  revert acc. induction links as [|trk links IH]; intros [[m0 it0] rt0].
  - cbn. intros [= <- <- <-] H. exact H.
  - cbn [maxCompatibilityTrack].
    destruct (tracksAtVerticesMap_at fs trk vtx) as [t|e|x];
      cbn [mbind Outcome_bind]; try discriminate.
    destruct (gtb (vertexCompatibility t) m0); [|apply IH].
    destruct (find_if_track trk seedTracks) as [j|] eqn:Hfind; [|apply IH].
    intros Hrec _. apply (IH _ Hrec). cbn. intros i [= <-].
    apply find_if_track_lookup, Hfind.
Qed.

(** [removeTrackIfIncompatible] moves one seed track to
    [removedSeedTracks], or none and says so; it does so whether or not the
    records of the linked tracks are there (without them it may throw). *)
Lemma removeTrackIfIncompatible_one_track
    vtx heap seedTracks (fs : FitterState') removed geoCtx b seedTracks' removed' fs' :
  removeTrackIfIncompatible ext vtx heap seedTracks fs removed geoCtx
  = Ok (b, seedTracks', removed', fs') ->
  (b = true
   /\ exists i trk, seedTracks !! i = Some trk
        /\ seedTracks' = delete i seedTracks /\ removed' = removed ++ [trk])
  \/ (b = false /\ seedTracks' = seedTracks /\ removed' = removed).
Proof.
  unfold removeTrackIfIncompatible.
  destruct (vtxInfoMap_subscript fs vtx) as [info fs1].
  destruct (maxCompatibilityTrack (trackLinks info) vtx seedTracks fs1
              (0%float, None, nullptr)) as [[[m it] rt]|e|x] eqn:Hmax;
    cbn [mbind Outcome_bind]; try discriminate.
  pose proof (maxCompatibilityTrack_track _ _ _ _ _ _ _ _ Hmax) as Hit.
  destruct it as [i|].
  - intros [= <- <- <- <-]. left. split; [reflexivity|]. exists i, rt.
    split; [apply Hit; [discriminate|reflexivity]|auto].
  - pose proof (closestTrackInZ_inv ext heap vtx geoCtx seedTracks [] seedTracks
                  (DBL_MAX, None, rt) eq_refl) as Hinv2.
    cbn [length] in Hinv2.
    destruct (closestTrackInZ ext seedTracks 0 (position_z (deref heap vtx)) geoCtx
                (DBL_MAX, None, rt)) as [[d it2] rt2].
    cbn [closestTrack_inv] in Hinv2.
    destruct it2 as [i|].
    + destruct Hinv2 as (Hlook & _).
      { split; [reflexivity|]. intros t Ht. inversion Ht. }
      intros [= <- <- <- <-]. left. split; [reflexivity|]. exists i, rt2. auto.
    + intros [= <- <- <- <-]. right. auto.
Qed.

(** ** What an iteration does to the working sets *)

Lemma keepOrDelete_sets vtx isGood opts seedTracks removed allVertices allVerticesPtr
    (fs : FitterState') (sfs : SeedFinderState) heap iteration step :
  keepOrDelete ext m_cfg vtx isGood opts seedTracks removed
    (allVertices ++ [vtx]) (allVerticesPtr ++ [vtx]) fs sfs heap iteration = Ok step ->
  exists st',
    step = Continue st'
    /\ st_seedTracks st' = seedTracks
    /\ st_removedSeedTracks st' = removed
    /\ ((st_allVertices st' = allVertices /\ st_allVerticesPtr st' = allVerticesPtr)
        \/ (st_allVertices st' = allVertices ++ [vtx]
            /\ st_allVerticesPtr st' = allVerticesPtr ++ [vtx])).
Proof.
  unfold keepOrDelete.
  destruct (if isGood then _ else _) as [[keep fs1]|e|x];
    cbn [mbind Outcome_bind]; try discriminate.
  destruct keep; cbn [negb mbind Outcome_bind].
  - intros [= <-]. eexists. split; [reflexivity|]. cbn. auto.
  - destruct (deleteLastVertex ext m_cfg vtx _ _ heap fs1 opts)
      as [[[[av avp] h] fs2]|e|x] eqn:Hdel; cbn [mbind Outcome_bind]; try discriminate.
    apply deleteLastVertex_pops in Hdel as [-> ->].
    intros [= <-]. eexists. split; [reflexivity|]. cbn. auto.
Qed.

Lemma find_iteration_sets origTracks opts (st : FinderState) step :
  find_iteration ext m_cfg origTracks opts st = Ok step -> setsAfter ext st step.
Proof.
  unfold find_iteration.
  destruct (doSeeding ext m_cfg _ _ opts _ _) as [[[seedVertex cc] sfs]|e|x];
    cbn [mbind Outcome_bind]; try discriminate.
  set (vtx := allocate ext (st_heap st)).
  destruct (_ =? _)%float.
  { rewrite breakLoop_snoc. intros [= <-]. cbn. auto. }
  destruct (canPrepareVertexForFit ext m_cfg _ _ vtx _ cc _ opts)
    as [[[prep fs1] h1]|e|x]; cbn [mbind Outcome_bind]; try discriminate.
  destruct prep; cbn [negb].
  2: { rewrite breakLoop_snoc. intros [= <-]. cbn. auto. }
  destruct (vertexFitter_addVtxToFit m_cfg _ h1 vtx opts) as [[fs2 h2]|e|x];
    cbn [mbind Outcome_bind]; try discriminate.
  destruct (checkVertexAndCompatibleTracks m_cfg vtx (st_seedTracks st) fs2 _)
    as [[[n isGood] fs3]|e|x] eqn:Hcheck; cbn [mbind Outcome_bind]; try discriminate.
  destruct (0 <? n) eqn:Hn.
  - unfold removeCompatibleTracksFromSeedTracks.
    destruct (vtxInfoMap_subscript fs3 vtx) as [info fs4].
    destruct (removeCompatibleTracksFromSeedTracks_loop m_cfg (trackLinks info) vtx
                (st_seedTracks st) fs4 []) as [[seedTracks' removed']|e|x] eqn:Hrem;
      cbn [mbind Outcome_bind]; try discriminate.
    apply removeCompatibleTracksFromSeedTracks_loop_moves in Hrem
      as (moved & Hmoved & Hperm & Hsub & _). cbn [app] in Hmoved. subst removed'.
    intros (st' & -> & Hseed & Hrem & Hvec)%keepOrDelete_sets. cbn.
    rewrite Hseed, Hrem. auto.
  - destruct (removeTrackIfIncompatible ext vtx h2 (st_seedTracks st) fs3 [] _)
      as [[[[b seedTracks'] removed'] fs4]|e|x] eqn:Hrem;
      cbn [mbind Outcome_bind]; try discriminate.
    apply removeTrackIfIncompatible_one_track in Hrem
      as [[-> (i & trk & Hlook & -> & ->)]|(-> & -> & ->)]; cbn [negb].
    + intros (st' & -> & Hseed & Hrem & Hvec)%keepOrDelete_sets. cbn.
      rewrite Hseed, Hrem. split; [|split; [apply sublist_delete|exact Hvec]].
      etransitivity; [apply delete_Permutation, Hlook|].
      cbn [app]. apply Permutation_cons_append.
    + rewrite breakLoop_snoc. intros [= <-]. cbn. auto.
Qed.

(** X2: An iteration that reaches its end has moved tracks, not lost or
    invented any: the seed tracks it started with are those it leaves
    together with those it put into [removedSeedTracks], which therefore
    holds exactly what this iteration removed; and what it leaves is in
    the order it had. *)
Theorem iteration_moves_tracks origTracks opts (st st' : FinderState) :
  find_iteration ext m_cfg origTracks opts st = Ok (Continue st') ->
  st_seedTracks st ≡ₚ st_seedTracks st' ++ st_removedSeedTracks st'
  /\ st_seedTracks st' `sublist_of` st_seedTracks st.
Proof. intros H%find_iteration_sets. cbn in H. tauto. Qed.

(** ** What the driver loop keeps *)

Lemma find_loop_sets fuel origTracks opts (st st' : FinderState) :
  find_loop ext m_cfg fuel origTracks opts st = Ok st' ->
  st_seedTracks st' `sublist_of` st_seedTracks st
  /\ (st_allVertices st = st_allVerticesPtr st ->
      st_allVertices st' = st_allVerticesPtr st').
Proof.
  revert st. induction fuel as [|fuel IH]; intros st; cbn [find_loop];
    (destruct (loopCondition m_cfg st); [|intros [= <-]; auto]); [discriminate|].
  destruct (find_iteration ext m_cfg origTracks opts st) as [[st1|st1]|e|x] eqn:Hstep;
    cbn [mbind Outcome_bind]; try discriminate;
    apply find_iteration_sets in Hstep; cbn [setsAfter] in Hstep.
  - intros [= <-]. destruct Hstep as (-> & -> & ->). auto.
  - intros [Hsub Hvec]%IH. destruct Hstep as (_ & Hsub1 & Hv). split.
    + etransitivity; eassumption.
    + intros Heq. apply Hvec. destruct Hv as [[-> ->]|[-> ->]]; congruence.
Qed.

(** X3: Whenever the loop ends, the seed tracks left are a sublist of those it
    started with: no track is added, duplicated or put in another place.
    For [find] the loop starts with all tracks, so the seed tracks are a
    sublist of the input throughout, and free of duplicates if the input
    is. *)
Theorem find_loop_seedTracks_sublist fuel origTracks opts (st st' : FinderState) :
  find_loop ext m_cfg fuel origTracks opts st = Ok st' ->
  st_seedTracks st' `sublist_of` st_seedTracks st
  /\ (NoDup (st_seedTracks st) -> NoDup (st_seedTracks st')).
Proof.
  intros [Hsub _]%find_loop_sets. split; [exact Hsub|].
  intros Hnd. eapply sublist_NoDup; eauto.
Qed.

(** X4: The owning vector [allVertices] and the view [allVerticesPtr] hold the
    same addresses in the same order after the loop if they did before,
    as they do when [find] starts. *)
Theorem find_loop_vectors_agree fuel origTracks opts (st st' : FinderState) :
  st_allVertices st = st_allVerticesPtr st ->
  find_loop ext m_cfg fuel origTracks opts st = Ok st' ->
  st_allVertices st' = st_allVerticesPtr st'.
Proof. intros Heq [_ Hvec]%find_loop_sets. auto. Qed.

(** ** Attaching tracks to a candidate *)

Lemma linksPresent_iff (fs : FitterState') vtx :
  linksPresent fs vtx = true <->
  forall trk, trk ∈ linkedTracks fs vtx ->
    is_Some (tracksAtVerticesMap fs !! (trk, vtx)).
Proof.
  unfold linksPresent. rewrite forallb_forall. split.
  - intros H trk Hin. eapply bool_decide_eq_true_1, H, list_elem_of_In, Hin.
  - intros H trk Hin. apply bool_decide_eq_true_2, H, list_elem_of_In, Hin.
Qed.

Lemma addCompatibleTracksToVertex_cons trk tracks vtx heap (fs : FitterState') opts :
  addCompatibleTracksToVertex ext m_cfg (trk :: tracks) vtx heap fs opts
  = if (tracksMaxZinterval m_cfg <? zDistance ext heap vtx (geoContext opts) trk)%float
    then addCompatibleTracksToVertex ext m_cfg tracks vtx heap fs opts
    else ipSig ← getIPSignificance ext m_cfg trk (deref heap vtx) opts;
         if (ipSig <? tracksMaxSignificance m_cfg)%float
         then addCompatibleTracksToVertex ext m_cfg tracks vtx heap
                (attachTrack ext trk vtx fs) opts
         else addCompatibleTracksToVertex ext m_cfg tracks vtx heap fs opts.
Proof.
  cbn [addCompatibleTracksToVertex]. unfold zDistance, attachTrack.
  destruct (_ <? _)%float; [reflexivity|].
  destruct (getIPSignificance ext m_cfg trk (deref heap vtx) opts) as [ipSig|e|x];
    cbn [mbind Outcome_bind]; try reflexivity.
  destruct (ipSig <? tracksMaxSignificance m_cfg)%float; [|reflexivity].
  destruct (tracksAtVerticesMap fs !! (trk, vtx));
    destruct (vtxInfoMap_subscript _ vtx) as [info fs1]; reflexivity.
Qed.

Lemma attachTrack_vtxInfoMap trk vtx (fs : FitterState') :
  vtxInfoMap (attachTrack ext trk vtx fs)
  = <[vtx := mkVertexInfo (info_constraint (vtxInfoMap_subscript fs vtx).1)
                          (seedPosition (vtxInfoMap_subscript fs vtx).1)
                          (linkedTracks fs vtx ++ [trk])]> (vtxInfoMap fs).
Proof.
  unfold attachTrack, linkedTracks, vtxInfoMap_subscript.
  destruct (tracksAtVerticesMap fs !! (trk, vtx)); cbn [vtxInfoMap set_tracksAtVerticesMap];
    destruct (vtxInfoMap fs !! vtx); cbn [fst vtxInfoMap set_vtxInfoMap];
    rewrite ?insert_insert_eq; reflexivity.
Qed.

Lemma attachTrack_tracksAtVerticesMap trk vtx (fs : FitterState') :
  tracksAtVerticesMap (attachTrack ext trk vtx fs)
  = match tracksAtVerticesMap fs !! (trk, vtx) with
    | Some _ => tracksAtVerticesMap fs
    | None => <[(trk, vtx) := TrackAtVertex_new ext (m_extractParameters ext trk) trk]>
                (tracksAtVerticesMap fs)
    end.
Proof.
  unfold attachTrack, vtxInfoMap_subscript.
  destruct (tracksAtVerticesMap fs !! (trk, vtx)); cbn [vtxInfoMap set_tracksAtVerticesMap];
    destruct (vtxInfoMap fs !! vtx); reflexivity.
Qed.

Lemma attachTrack_rest trk vtx (fs : FitterState') :
  vertexCollection (attachTrack ext trk vtx fs) = vertexCollection fs
  /\ trackToVerticesMultiMap (attachTrack ext trk vtx fs) = trackToVerticesMultiMap fs
  /\ fitterInternals (attachTrack ext trk vtx fs) = fitterInternals fs.
Proof.
  unfold attachTrack, vtxInfoMap_subscript.
  destruct (tracksAtVerticesMap fs !! (trk, vtx)); cbn [vtxInfoMap set_tracksAtVerticesMap];
    destruct (vtxInfoMap fs !! vtx); auto.
Qed.

Lemma linkedTracks_insert vtx info (fs : FitterState') m :
  vtxInfoMap fs = <[vtx := info]> m -> linkedTracks fs vtx = trackLinks info.
Proof.
  intros H. unfold linkedTracks, vtxInfoMap_subscript. rewrite H, lookup_insert_eq.
  reflexivity.
Qed.

Lemma subscript_insert vtx info (fs : FitterState') m :
  vtxInfoMap fs = <[vtx := info]> m -> (vtxInfoMap_subscript fs vtx).1 = info.
Proof.
  intros H. unfold vtxInfoMap_subscript. rewrite H, lookup_insert_eq. reflexivity.
Qed.

(** Everything [addCompatibleTracksToVertex] does to the fitter state. *)
Lemma addCompatibleTracksToVertex_post tracks vtx heap (fs fs' : FitterState') opts :
  addCompatibleTracksToVertex ext m_cfg tracks vtx heap fs opts = Ok fs' ->
  linkedTracks fs' vtx
  = linkedTracks fs vtx ++ List.filter (attaches ext m_cfg heap vtx opts) tracks
  /\ (forall k t, tracksAtVerticesMap fs !! k = Some t ->
        tracksAtVerticesMap fs' !! k = Some t)
  /\ (forall k, tracksAtVerticesMap fs !! k = None ->
        tracksAtVerticesMap fs' !! k
        = if bool_decide (k.2 = vtx
                          /\ k.1 ∈ List.filter (attaches ext m_cfg heap vtx opts) tracks)
          then Some (TrackAtVertex_new ext (m_extractParameters ext k.1) k.1)
          else None)
  /\ (forall v, v <> vtx -> vtxInfoMap fs' !! v = vtxInfoMap fs !! v)
  /\ info_constraint (vtxInfoMap_subscript fs' vtx).1
     = info_constraint (vtxInfoMap_subscript fs vtx).1
  /\ seedPosition (vtxInfoMap_subscript fs' vtx).1
     = seedPosition (vtxInfoMap_subscript fs vtx).1
  /\ (is_Some (vtxInfoMap fs !! vtx) -> is_Some (vtxInfoMap fs' !! vtx))
  /\ vertexCollection fs' = vertexCollection fs
  /\ trackToVerticesMultiMap fs' = trackToVerticesMultiMap fs
  /\ fitterInternals fs' = fitterInternals fs.
Proof.
  revert fs. induction tracks as [|trk tracks IH]; intros fs.
  - cbn. intros [= <-]. rewrite app_nil_r. repeat split; auto.
    intros k Hk. rewrite Hk. rewrite bool_decide_eq_false_2; [reflexivity|].
    intros [_ Hin]. inversion Hin.
  - rewrite addCompatibleTracksToVertex_cons. cbn [List.filter].
    pose proof (eq_refl (attaches ext m_cfg heap vtx opts trk)) as Hatt.
    unfold attaches at 2 in Hatt.
    destruct (_ <? zDistance ext heap vtx (geoContext opts) trk)%float;
      [rewrite Hatt; apply IH|].
    destruct (getIPSignificance ext m_cfg trk (deref heap vtx) opts) as [ipSig|e|x];
      cbn [mbind Outcome_bind]; try discriminate.
    destruct (ipSig <? tracksMaxSignificance m_cfg)%float; rewrite Hatt; [|apply IH].
    clear Hatt. intros (Hl & Hkeep & Hnew & Hinfo & Hc & Hp & Hsome & Hvc & Hmm & Hfi)%IH.
    pose proof (attachTrack_vtxInfoMap trk vtx fs) as Hvim.
    pose proof (attachTrack_tracksAtVerticesMap trk vtx fs) as Htav.
    destruct (attachTrack_rest trk vtx fs) as (Hvc0 & Hmm0 & Hfi0).
    rewrite (linkedTracks_insert _ _ _ _ Hvim) in Hl. cbn [trackLinks] in Hl.
    rewrite (subscript_insert _ _ _ _ Hvim) in Hc, Hp. cbn in Hc, Hp.
    split; [rewrite Hl, <- app_assoc; reflexivity|].
    split.
    { intros k t Hk. apply Hkeep. rewrite Htav.
      destruct (tracksAtVerticesMap fs !! (trk, vtx)) eqn:E; [exact Hk|].
      rewrite lookup_insert_ne; [exact Hk|]. intros <-. congruence. }
    split.
    { intros k Hk. destruct (decide (k = (trk, vtx))) as [->|Hne].
      - cbn [fst snd]. rewrite bool_decide_eq_true_2 by (split; [reflexivity|left]).
        apply Hkeep. rewrite Htav, Hk. apply lookup_insert_eq.
      - rewrite Hnew.
        + apply option_eq. intros t. rewrite !bool_decide_decide.
          destruct (decide _) as [[H1 H2]|Hn], (decide _) as [[H3 H4]|Hn'];
            try reflexivity.
          * exfalso. apply Hn'. split; [exact H1|right; exact H2].
          * exfalso. apply elem_of_cons in H4 as [H4|H4].
            -- apply Hne. destruct k; cbn in *; congruence.
            -- apply Hn. auto.
        + rewrite Htav.
          destruct (tracksAtVerticesMap fs !! (trk, vtx)); [exact Hk|].
          rewrite lookup_insert_ne; [exact Hk|]. congruence. }
    split.
    { intros v Hv. rewrite (Hinfo v Hv), Hvim. apply lookup_insert_ne. congruence. }
    split; [exact Hc|]. split; [exact Hp|].
    split; [intros _; apply Hsome; rewrite Hvim, lookup_insert_eq; eexists; reflexivity|].
    repeat split; congruence.
Qed.

(** X5: A track is linked by [addCompatibleTracksToVertex] exactly if it is
    within [tracksMaxZinterval] of the vertex in [z] and its significance is
    below [tracksMaxSignificance]: the new links are those tracks, in the
    order given, after the links the vertex had. *)
Theorem addCompatibleTracksToVertex_links tracks vtx heap (fs fs' : FitterState') opts :
  addCompatibleTracksToVertex ext m_cfg tracks vtx heap fs opts = Ok fs' ->
  linkedTracks fs' vtx
  = linkedTracks fs vtx ++ List.filter (attaches ext m_cfg heap vtx opts) tracks.
Proof. intros H%addCompatibleTracksToVertex_post. tauto. Qed.

(** X6: [addCompatibleTracksToVertex] never overwrites a record ([emplace]):
    records that exist stay as they are, also those of the vertex itself;
    every track it links has a record afterwards; records of other
    vertices and their [VertexInfo] are untouched. So if every link had
    its record before, every link has one after. *)
Theorem addCompatibleTracksToVertex_records tracks vtx heap (fs fs' : FitterState') opts :
  addCompatibleTracksToVertex ext m_cfg tracks vtx heap fs opts = Ok fs' ->
  (forall k t, tracksAtVerticesMap fs !! k = Some t ->
     tracksAtVerticesMap fs' !! k = Some t)
  /\ (forall trk, trk ∈ List.filter (attaches ext m_cfg heap vtx opts) tracks ->
        is_Some (tracksAtVerticesMap fs' !! (trk, vtx)))
  /\ (forall k, k.2 <> vtx ->
        tracksAtVerticesMap fs' !! k = tracksAtVerticesMap fs !! k)
  /\ (forall v, v <> vtx -> vtxInfoMap fs' !! v = vtxInfoMap fs !! v)
  /\ (linksPresent fs vtx = true -> linksPresent fs' vtx = true).
Proof.
  intros (Hl & Hkeep & Hnew & Hinfo & _)%addCompatibleTracksToVertex_post.
  assert (Hrec : forall trk,
            trk ∈ List.filter (attaches ext m_cfg heap vtx opts) tracks ->
            is_Some (tracksAtVerticesMap fs' !! (trk, vtx))).
  { intros trk Hin. destruct (tracksAtVerticesMap fs !! (trk, vtx)) as [t|] eqn:E.
    - rewrite (Hkeep _ _ E). eexists; reflexivity.
    - rewrite (Hnew _ E), bool_decide_eq_true_2 by (split; [reflexivity|exact Hin]).
      eexists; reflexivity. }
  split; [exact Hkeep|]. split; [exact Hrec|]. split.
  { intros k Hk. destruct (tracksAtVerticesMap fs !! k) as [t|] eqn:E.
    - apply Hkeep, E.
    - rewrite (Hnew _ E), bool_decide_eq_false_2 by tauto. reflexivity. }
  split; [exact Hinfo|].
  rewrite !linksPresent_iff, Hl. intros Hpres trk [Hin|Hin]%elem_of_app.
  - destruct (Hpres _ Hin) as [t Ht]. rewrite (Hkeep _ _ Ht). eexists; reflexivity.
  - apply Hrec, Hin.
Qed.

(** ** Preparing a candidate *)

Lemma nearestTrackZ_inv heap vtx geoCtx visited tracks acc :
  nearestTrack_inv ext heap vtx geoCtx visited acc ->
  nearestTrack_inv ext heap vtx geoCtx (visited ++ tracks)
    (nearestTrackZ ext tracks (position_z (deref heap vtx)) geoCtx acc).
Proof.
  revert visited acc. induction tracks as [|trk tracks IH]; intros visited acc Hinv.
  - rewrite app_nil_r. exact Hinv.
  - destruct acc as [[d newZ] found]. cbn [nearestTrackZ].
    fold (zDistance ext heap vtx geoCtx trk). fold (trackZ ext geoCtx trk).
    replace (visited ++ trk :: tracks) with ((visited ++ [trk]) ++ tracks)
      by (rewrite <- app_assoc; reflexivity).
    destruct (zDistance ext heap vtx geoCtx trk <? d)%float eqn:Hlt;
      apply IH; cbn [nearestTrack_inv] in *.
    + exists trk. split; [apply elem_of_app; right; left|].
      split; [reflexivity|]. split; [reflexivity|].
      assert (Hmax : (zDistance ext heap vtx geoCtx trk <? DBL_MAX)%float = true).
      { destruct found.
        - destruct Hinv as (t0 & _ & _ & _ & Hd & _).
          eapply ltb_trans; eassumption.
        - destruct Hinv as [-> _]. exact Hlt. }
      split; [exact Hmax|].
      intros t' [Ht'| ->%list_elem_of_singleton]%elem_of_app; [|apply ltb_irrefl].
      destruct (zDistance ext heap vtx geoCtx t' <? zDistance ext heap vtx geoCtx trk)%float
        eqn:E; [|reflexivity].
      pose proof (ltb_trans _ _ _ E Hlt) as Hcontra.
      destruct found.
      * destruct Hinv as (t0 & _ & _ & _ & _ & Hall).
        rewrite (Hall _ Ht') in Hcontra. discriminate.
      * destruct Hinv as [-> Hall]. rewrite (Hall _ Ht') in Hcontra. discriminate.
    + destruct found.
      * destruct Hinv as (t0 & H0 & H1 & H2 & H3 & Hall). exists t0.
        split; [apply elem_of_app; left; exact H0|]. repeat split; auto.
        intros t' [Ht'| ->%list_elem_of_singleton]%elem_of_app; [auto|exact Hlt].
      * destruct Hinv as [-> Hall]. split; [reflexivity|].
        intros t' [Ht'| ->%list_elem_of_singleton]%elem_of_app; [auto|exact Hlt].
Qed.

Lemma vtxInfoMap_subscript_Some (fs : FitterState') vtx info :
  vtxInfoMap fs !! vtx = Some info -> vtxInfoMap_subscript fs vtx = (info, fs).
Proof. intros H. unfold vtxInfoMap_subscript. rewrite H. reflexivity. Qed.

Lemma vtxInfoMap_subscript_other (fs : FitterState') vtx v :
  v <> vtx -> vtxInfoMap (vtxInfoMap_subscript fs vtx).2 !! v = vtxInfoMap fs !! v.
Proof.
  intros Hne. unfold vtxInfoMap_subscript. destruct (vtxInfoMap fs !! vtx); [reflexivity|].
  cbn. apply lookup_insert_ne. congruence.
Qed.

Lemma vtxInfoMap_subscript_lookup (fs : FitterState') vtx :
  vtxInfoMap (vtxInfoMap_subscript fs vtx).2 !! vtx = Some (vtxInfoMap_subscript fs vtx).1.
Proof.
  unfold vtxInfoMap_subscript. destruct (vtxInfoMap fs !! vtx) eqn:E; [exact E|].
  cbn. apply lookup_insert_eq.
Qed.

Lemma linkedTracks_subscript (fs : FitterState') vtx :
  linkedTracks (vtxInfoMap_subscript fs vtx).2 vtx = linkedTracks fs vtx.
Proof. unfold linkedTracks. rewrite vtxInfoMap_subscript_again. reflexivity. Qed.

(** The three ways [canRecoverFromNoCompatibleTracks] returns. *)
Lemma canRecoverFromNoCompatibleTracks_cases
    allTracks seedTracks vtx heap cc (fs : FitterState') opts b fs' heap' :
  canRecoverFromNoCompatibleTracks ext m_cfg allTracks seedTracks vtx heap cc fs opts
  = Ok (b, fs', heap') ->
  (linkedTracks fs vtx <> [] /\ b = true /\ heap' = heap
   /\ fs' = (vtxInfoMap_subscript fs vtx).2)
  \/ (linkedTracks fs vtx = []
      /\ noCloseTrack ext heap vtx (geoContext opts) seedTracks
      /\ b = false /\ heap' = heap /\ fs' = (vtxInfoMap_subscript fs vtx).2)
  \/ (linkedTracks fs vtx = []
      /\ exists trk fs3,
           minimalZDistance ext heap vtx (geoContext opts) seedTracks trk
           /\ heap' = relocated ext heap vtx (geoContext opts) trk
           /\ addCompatibleTracksToVertex ext m_cfg allTracks vtx heap'
                (resetVertexInfo cc heap' vtx (vtxInfoMap_subscript fs vtx).2) opts
              = Ok fs3
           /\ fs' = (vtxInfoMap_subscript fs3 vtx).2
           /\ (b = true <-> linkedTracks fs3 vtx <> [])).
Proof.
  unfold canRecoverFromNoCompatibleTracks, linkedTracks.
  destruct (vtxInfoMap_subscript fs vtx) as [info fs1] eqn:Esub. cbn [fst snd].
  destruct (trackLinks info) as [|l0 ls] eqn:Elinks.
  2: { intros [= <- <- <-]. left. repeat split; auto; discriminate. }
  pose proof (nearestTrackZ_inv heap vtx (geoContext opts) [] seedTracks
                (DBL_MAX, 0%float, false)) as Hinv.
  cbn [app] in Hinv.
  destruct (nearestTrackZ ext seedTracks (position_z (deref heap vtx)) (geoContext opts)
              (DBL_MAX, 0%float, false)) as [[d newZ] found].
  destruct found.
  - destruct Hinv as (trk & Hin & -> & -> & Hmax & Hall).
    { split; [reflexivity|]. intros t Ht. inversion Ht. }
    fold (relocated ext heap vtx (geoContext opts) trk).
    set (heap2 := relocated ext heap vtx (geoContext opts) trk).
    fold (resetVertexInfo cc heap2 vtx fs1).
    destruct (addCompatibleTracksToVertex ext m_cfg allTracks vtx heap2
                (resetVertexInfo cc heap2 vtx fs1) opts) as [fs3|e|x] eqn:Hadd;
      cbn [mbind Outcome_bind]; try discriminate.
    intros Hres. right. right. split; [reflexivity|]. exists trk, fs3.
    split; [repeat split; auto|].
    destruct (vtxInfoMap_subscript fs3 vtx) as [info3 fs4] eqn:Esub3. cbn [fst snd].
    destruct (trackLinks info3) eqn:El3; injection Hres as <- <- <-;
      (split; [reflexivity|]); (split; [exact Hadd|]); (split; [reflexivity|]);
      split; try discriminate; try congruence.
  - destruct Hinv as [_ Hall].
    { split; [reflexivity|]. intros t Ht. inversion Ht. }
    intros [= <- <- <-]. right. left. repeat split; auto.
Qed.

Lemma resetVertexInfo_subscript cc heap vtx (fs : FitterState') :
  (vtxInfoMap_subscript (resetVertexInfo cc heap vtx fs) vtx).1
  = VertexInfo_new cc (fullPosition (deref heap vtx)).
Proof.
  unfold vtxInfoMap_subscript, resetVertexInfo. cbn [vtxInfoMap set_vtxInfoMap].
  rewrite lookup_insert_eq. reflexivity.
Qed.

Lemma resetVertexInfo_links cc heap vtx (fs : FitterState') :
  linkedTracks (resetVertexInfo cc heap vtx fs) vtx = [].
Proof. unfold linkedTracks. rewrite resetVertexInfo_subscript. reflexivity. Qed.

(** X7: When the candidate has no linked track, the recovery looks for the
    seed track nearest in [z]: if no seed track has a distance below
    [DBL_MAX] it gives up and changes nothing; otherwise it puts the
    candidate at [(0, 0, z, 0)] with the z of a seed track of minimal
    distance and links the tracks that attach to it there, and succeeds
    exactly if there is one. With a linked track it does nothing. *)
Theorem canRecoverFromNoCompatibleTracks_relocates
    allTracks seedTracks vtx heap cc (fs : FitterState') opts b fs' heap' :
  canRecoverFromNoCompatibleTracks ext m_cfg allTracks seedTracks vtx heap cc fs opts
  = Ok (b, fs', heap') ->
  (linkedTracks fs vtx <> [] ->
   b = true /\ heap' = heap /\ linkedTracks fs' vtx = linkedTracks fs vtx)
  /\ (linkedTracks fs vtx = [] ->
      (noCloseTrack ext heap vtx (geoContext opts) seedTracks
       /\ b = false /\ heap' = heap)
      \/ (exists trk,
            minimalZDistance ext heap vtx (geoContext opts) seedTracks trk
            /\ heap' = relocated ext heap vtx (geoContext opts) trk
            /\ linkedTracks fs' vtx
               = List.filter (attaches ext m_cfg heap' vtx opts) allTracks
            /\ (b = true <-> linkedTracks fs' vtx <> []))).
Proof.
  intros [(Hne & -> & -> & ->)|[(He & Hno & -> & -> & ->)
          |(He & trk & fs3 & Hmin & -> & Hadd & -> & Hb)]]%
    canRecoverFromNoCompatibleTracks_cases.
  - split; [intros _|contradiction]. rewrite linkedTracks_subscript. auto.
  - split; [contradiction|]. intros _. left. auto.
  - split; [contradiction|]. intros _. right. exists trk.
    apply addCompatibleTracksToVertex_post in Hadd as (Hl & _).
    rewrite resetVertexInfo_links in Hl. cbn [app] in Hl.
    rewrite linkedTracks_subscript, <- Hl. auto.
Qed.

Lemma prepared_after_attaching allTracks vtx heap cc (fs0 fsA : FitterState') opts :
  addCompatibleTracksToVertex ext m_cfg allTracks vtx heap
    (resetVertexInfo cc heap vtx fs0) opts = Ok fsA ->
  linksPresent fsA vtx = true
  /\ linkedTracks fsA vtx = List.filter (attaches ext m_cfg heap vtx opts) allTracks
  /\ (exists info, vtxInfoMap fsA !! vtx = Some info
        /\ info_constraint info = cc
        /\ seedPosition info = fullPosition (deref heap vtx))
  /\ (forall v, v <> vtx -> vtxInfoMap fsA !! v = vtxInfoMap fs0 !! v)
  /\ (forall k t, tracksAtVerticesMap fs0 !! k = Some t ->
        tracksAtVerticesMap fsA !! k = Some t).
Proof.
  intros Hadd.
  pose proof (addCompatibleTracksToVertex_post _ _ _ _ _ _ Hadd)
    as (Hl & Hkeep & Hnew & Hinfo & Hc & Hp & Hsome & _).
  rewrite resetVertexInfo_links in Hl. rewrite resetVertexInfo_subscript in Hc, Hp.
  cbn [info_constraint seedPosition VertexInfo_new app] in Hl, Hc, Hp.
  destruct Hsome as [info Hi].
  { cbn. rewrite lookup_insert_eq. eexists; reflexivity. }
  rewrite (vtxInfoMap_subscript_Some _ _ _ Hi) in Hc, Hp. cbn [fst] in Hc, Hp.
  split.
  { apply linksPresent_iff. rewrite Hl. intros trk Hin.
    destruct (tracksAtVerticesMap (resetVertexInfo cc heap vtx fs0) !! (trk, vtx))
      as [t|] eqn:E.
    - rewrite (Hkeep _ _ E). eexists; reflexivity.
    - rewrite (Hnew _ E), bool_decide_eq_true_2 by (split; [reflexivity|exact Hin]).
      eexists; reflexivity. }
  split; [exact Hl|]. split; [exists info; auto|]. split.
  - intros v Hv. rewrite (Hinfo v Hv). cbn. apply lookup_insert_ne. congruence.
  - intros k t Hk. apply Hkeep. exact Hk.
Qed.

(** X8: What [canPrepareVertexForFit] establishes, whatever it answers: the
    linked tracks of the candidate are the tracks of the search set that
    attach to it at the position it ends up with, each of them has its
    record, and the answer is true exactly if there is one; the
    [VertexInfo] of the candidate carries the current constraint and the
    position of the candidate as seed position. Other vertices, their
    records and all records that existed are left alone. *)
Theorem canPrepareVertexForFit_prepares
    allTracks seedTracks vtx heap cc (fs : FitterState') opts b fs' heap' :
  canPrepareVertexForFit ext m_cfg allTracks seedTracks vtx heap cc fs opts
  = Ok (b, fs', heap') ->
  linksPresent fs' vtx = true
  /\ linkedTracks fs' vtx = List.filter (attaches ext m_cfg heap' vtx opts) allTracks
  /\ (b = true <-> linkedTracks fs' vtx <> [])
  /\ (exists info, vtxInfoMap fs' !! vtx = Some info
        /\ info_constraint info = cc
        /\ seedPosition info = fullPosition (deref heap' vtx))
  /\ (forall v, v <> vtx -> vtxInfoMap fs' !! v = vtxInfoMap fs !! v)
  /\ (forall k t, tracksAtVerticesMap fs !! k = Some t ->
        tracksAtVerticesMap fs' !! k = Some t)
  /\ (forall p, p <> vtx -> heap' !! p = heap !! p).
Proof.
  unfold canPrepareVertexForFit. fold (resetVertexInfo cc heap vtx fs).
  destruct (addCompatibleTracksToVertex ext m_cfg allTracks vtx heap
              (resetVertexInfo cc heap vtx fs) opts) as [fs1|e|x] eqn:Hadd;
    cbn [mbind Outcome_bind]; try discriminate.
  apply prepared_after_attaching in Hadd as (Hpres & Hl & (info & Hi & Hc & Hp) & Hoth & Hkeep).
  pose proof (vtxInfoMap_subscript_Some _ _ _ Hi) as Hsub.
  intros [(Hne & -> & -> & ->)|[(He & Hno & -> & -> & ->)
          |(He & trk & fs3 & Hmin & -> & Hadd3 & -> & Hb)]]%
    canRecoverFromNoCompatibleTracks_cases; rewrite Hsub in *; cbn [fst snd] in *.
  - repeat split; eauto; congruence.
  - repeat split; eauto; congruence.
  - apply prepared_after_attaching in Hadd3
      as (Hpres3 & Hl3 & (info3 & Hi3 & Hc3 & Hp3) & Hoth3 & Hkeep3).
    rewrite (vtxInfoMap_subscript_Some _ _ _ Hi3). cbn [snd].
    split; [exact Hpres3|]. split; [exact Hl3|]. split; [exact Hb|].
    split; [exists info3; auto|]. split; [intros v Hv; rewrite Hoth3, Hoth; auto|].
    split; [intros k t Hk; auto|].
    intros p Hp'. unfold relocated. apply lookup_insert_ne. congruence.
Qed.

(** ** How [find] ends *)

Lemma find_loop_count fuel origTracks opts (st st' : FinderState) :
  find_loop ext m_cfg fuel origTracks opts st = Ok st' ->
  Z.of_nat (length (st_allVerticesPtr st')) - Z.of_nat (length (st_allVerticesPtr st))
  <= st_iteration st' - st_iteration st
  /\ st_iteration st' <= Z.max (st_iteration st) (maxIterations m_cfg).
Proof.
  revert st. induction fuel as [|fuel IH]; intros st; cbn [find_loop];
    (destruct (loopCondition m_cfg st) eqn:Hc; [|intros [= <-]; lia]); [discriminate|].
  apply loopCondition_iteration in Hc.
  destruct (find_iteration ext m_cfg origTracks opts st) as [[st1|st1]|e|x] eqn:Hstep;
    cbn [mbind Outcome_bind]; try discriminate;
    apply find_iteration_step in Hstep; cbn [stepFrom] in Hstep.
  - intros [= <-]. destruct Hstep as [-> ->]. lia.
  - intros [H1 H2]%IH. destruct Hstep as (Hptr & Hit & _).
    destruct Hptr as [Heq|[v Heq]]; rewrite Heq in H1;
      [|rewrite length_app in H1; cbn [length] in H1]; lia.
Qed.

(** X9: [find] returns at most as many vertices as it may run iterations, and
    at most as many as there are tracks: every accepted vertex costs a
    full iteration, and every full iteration a seed track. *)
Theorem find_vertex_count allTracks opts out :
  find ext m_cfg allTracks opts = Ok out ->
  Z.of_nat (length out) <= Z.max 0 (maxIterations m_cfg)
  /\ (length out <= length allTracks)%nat.
Proof.
  unfold find. destruct allTracks as [|trk allTracks]; [discriminate|].
  destruct (find_loop ext m_cfg _ _ opts _) as [st'|e|x] eqn:Hloop;
    cbn [mbind Outcome_bind]; try discriminate.
  intros Hout%getVertexOutputList_length.
  pose proof (find_loop_count _ _ _ _ _ Hloop) as [Hc Hmax].
  pose proof (find_loop_iterations _ _ _ _ _ _ _ Hloop) as (_ & Hit & _).
  cbn [initialState st_allVerticesPtr st_iteration st_seedTracks length] in *.
  rewrite Hout. lia.
Qed.

(** X10: With [maxIterations <= 0] the loop is not entered: [find] returns no
    vertex for any non-empty input, and no collaborator is consulted. *)
Theorem find_without_iterations allTracks opts :
  maxIterations m_cfg <= 0 -> allTracks <> [] ->
  find ext m_cfg allTracks opts = Ok [].
Proof.
  intros Hmax Hne. unfold find. destruct allTracks as [|trk allTracks]; [congruence|].
  replace (Z.to_nat (maxIterations m_cfg)) with 0%nat by lia.
  cbn [find_loop]. unfold loopCondition. cbn [initialState st_iteration].
  replace (0 <? maxIterations m_cfg) with false by (symmetry; apply Z.ltb_ge; lia).
  rewrite andb_false_r. reflexivity.
Qed.

(** X11: An iteration begins with the seed finder. If it fails, the loop, and
    with it [find], ends with that failure, whatever was accepted before;
    if it returns no vertex at all, taking [back()] of the empty vector
    is a fault. *)
Theorem find_loop_seedFinder_failure fuel origTracks opts (st : FinderState) :
  loopCondition m_cfg st = true ->
  match seedFinderCall ext m_cfg opts st with
  | Failure e =>
      find_loop ext m_cfg (S fuel) origTracks opts st = Failure e
  | Fault x =>
      find_loop ext m_cfg (S fuel) origTracks opts st = Fault x
  | Ok ([], _) =>
      find_loop ext m_cfg (S fuel) origTracks opts st = Fault empty_vector
  | Ok (_ :: _, _) => True
  end.
Proof.
  intros Hc. cbn [find_loop]. rewrite Hc. unfold find_iteration, doSeeding.
  fold (seedFinderCall ext m_cfg opts st).
  destruct (seedFinderCall ext m_cfg opts st) as [[[|v seeds] sfs]|e|x];
    cbn [mbind Outcome_bind]; auto.
Qed.

(** ** Merging in [z] is symmetric *)

(** X12: Without 3D splitting the significance of a pair does not depend on
    which of the two vertices is the candidate: the distance in [z] is
    taken in absolute value and the two variances are added. *)
Theorem isMergedVertex_symmetric_in_z vtx otherVtx heap :
  do3dSplitting m_cfg = false ->
  isMergedVertex ext m_cfg vtx heap [otherVtx]
  = isMergedVertex ext m_cfg otherVtx heap [vtx].
Proof.
  intros H3d. cbn [isMergedVertex].
  destruct (decide (vtx = otherVtx)) as [->|Hne].
  - destruct (decide (otherVtx = otherVtx)); [reflexivity|congruence].
  - destruct (decide (otherVtx = vtx)); [congruence|].
    unfold mergeSignificance. rewrite H3d. cbn [negb].
    rewrite (double_add_comm (mat4_eZ_eZ (fullCovariance (deref heap vtx)))).
    rewrite (double_abs_sub_swap (vec4_eZ (fullPosition (deref heap vtx)))).
    reflexivity.
Qed.

(** ** The output list *)

Lemma linkedTracks_subscript_any (fs : FitterState') vtx v :
  linkedTracks (vtxInfoMap_subscript fs vtx).2 v = linkedTracks fs v.
Proof.
  destruct (decide (v = vtx)) as [->|Hne]; [apply linkedTracks_subscript|].
  unfold linkedTracks. unfold vtxInfoMap_subscript at 1 3.
  rewrite vtxInfoMap_subscript_other by exact Hne.
  destruct (vtxInfoMap fs !! v); reflexivity.
Qed.

Lemma tracksAtVertexOf_Ok links vtx (fs : FitterState') tracks :
  tracksAtVertexOf links vtx fs = Ok tracks ->
  map Some tracks = map (fun trk => tracksAtVerticesMap fs !! (trk, vtx)) links.
Proof.
  revert tracks. induction links as [|trk links IH]; intros tracks; cbn [tracksAtVertexOf].
  - intros [= <-]. reflexivity.
  - unfold tracksAtVerticesMap_at.
    destruct (tracksAtVerticesMap fs !! (trk, vtx)) as [t|] eqn:E;
      cbn [mbind Outcome_bind]; [|discriminate].
    destruct (tracksAtVertexOf links vtx fs) as [rest|e|x];
      cbn [mbind Outcome_bind]; try discriminate.
    intros [= <-]. cbn [map]. rewrite E. f_equal. apply IH. reflexivity.
Qed.

Lemma tracksAtVertexOf_total links vtx (fs : FitterState') :
  if forallb (fun trk => bool_decide (is_Some (tracksAtVerticesMap fs !! (trk, vtx)))) links
  then exists tracks, tracksAtVertexOf links vtx fs = Ok tracks
  else tracksAtVertexOf links vtx fs = Fault out_of_range.
Proof.
  induction links as [|trk links IH]; cbn [tracksAtVertexOf forallb]; [eauto|].
  unfold tracksAtVerticesMap_at.
  destruct (tracksAtVerticesMap fs !! (trk, vtx)) as [t|] eqn:E; cbn [mbind Outcome_bind].
  - rewrite bool_decide_eq_true_2 by eauto. cbn [andb].
    destruct (forallb _ links).
    + destruct IH as [tracks ->]. cbn [mbind Outcome_bind]. eauto.
    + rewrite IH. reflexivity.
  - rewrite bool_decide_eq_false_2 by (intros [? ?]; discriminate). reflexivity.
Qed.

Lemma getVertexOutputList_contents_gen ptrs :
  forall heap heap0 (fs fs0 : FitterState') out,
  (forall p, setTracksAtVertex [] (deref heap p) = setTracksAtVertex [] (deref heap0 p)) ->
  tracksAtVerticesMap fs = tracksAtVerticesMap fs0 ->
  (forall v, linkedTracks fs v = linkedTracks fs0 v) ->
  getVertexOutputList ptrs heap fs = Ok out ->
  Forall2 (fun vtx outVtx =>
             setTracksAtVertex [] outVtx = setTracksAtVertex [] (deref heap0 vtx)
             /\ map Some (tracksAtVertex outVtx)
                = map (fun trk => tracksAtVerticesMap fs0 !! (trk, vtx))
                      (linkedTracks fs0 vtx))
          ptrs out.
Proof.
  induction ptrs as [|vtx ptrs IH]; intros heap heap0 fs fs0 out Hheap Hmap Hlinks;
    cbn [getVertexOutputList].
  - intros [= <-]. constructor.
  - pose proof (linkedTracks_subscript_any fs vtx) as Hsub.
    pose proof (vtxInfoMap_subscript_tracksAtVerticesMap fs vtx) as Hsubmap.
    pose proof (eq_refl (linkedTracks fs vtx)) as Hinfo. unfold linkedTracks at 1 in Hinfo.
    destruct (vtxInfoMap_subscript fs vtx) as [info fs1]. cbn [fst snd] in *.
    destruct (tracksAtVertexOf (trackLinks info) vtx fs1) as [tracks|e|x] eqn:Htr;
      cbn [mbind Outcome_bind]; try discriminate.
    destruct (getVertexOutputList ptrs _ fs1) as [rest|e|x] eqn:Hrest;
      cbn [mbind Outcome_bind]; try discriminate.
    intros [= <-]. constructor.
    + split; [exact (Hheap vtx)|]. cbn [tracksAtVertex setTracksAtVertex].
      apply tracksAtVertexOf_Ok in Htr. rewrite Htr, Hinfo, Hlinks, Hsubmap, Hmap.
      reflexivity.
    + eapply IH; [| | |exact Hrest].
      * intros p. unfold deref. destruct (decide (p = vtx)) as [->|Hne].
        -- rewrite lookup_insert_eq. exact (Hheap vtx).
        -- rewrite lookup_insert_ne by congruence. exact (Hheap p).
      * congruence.
      * intros v. rewrite Hsub. apply Hlinks.
Qed.

(** X13: The vertices [getVertexOutputList] returns are the vertices the
    pointers refer to, in the order of the pointers, with nothing changed
    but their tracks: the tracks of a vertex are the records of its
    linked tracks, in the order of the links. *)
Theorem getVertexOutputList_contents ptrs heap (fs : FitterState') out :
  getVertexOutputList ptrs heap fs = Ok out ->
  Forall2 (fun vtx outVtx =>
             fullPosition outVtx = fullPosition (deref heap vtx)
             /\ fullCovariance outVtx = fullCovariance (deref heap vtx)
             /\ fitQuality outVtx = fitQuality (deref heap vtx)
             /\ map Some (tracksAtVertex outVtx)
                = map (fun trk => tracksAtVerticesMap fs !! (trk, vtx))
                      (linkedTracks fs vtx))
          ptrs out.
Proof.
  intros H.
  eapply Forall2_impl;
    [eapply (getVertexOutputList_contents_gen ptrs heap heap fs fs); eauto|].
  cbn beta. intros vtx outVtx [Hsame Htracks]. unfold setTracksAtVertex in Hsame.
  injection Hsame as Hp Hc Hq. auto.
Qed.

(** X14: [getVertexOutputList] reads the record of every linked track with
    [at]: it returns a list exactly when every linked track of every
    vertex has its record, and throws [std::out_of_range] otherwise. *)
Theorem getVertexOutputList_records ptrs heap (fs : FitterState') :
  if forallb (linksPresent fs) ptrs
  then exists out, getVertexOutputList ptrs heap fs = Ok out
  else getVertexOutputList ptrs heap fs = Fault out_of_range.
Proof.
  assert (Hgen : forall fs1 : FitterState',
             tracksAtVerticesMap fs1 = tracksAtVerticesMap fs ->
             (forall v, linkedTracks fs1 v = linkedTracks fs v) ->
             forall heap1,
             if forallb (linksPresent fs) ptrs
             then exists out, getVertexOutputList ptrs heap1 fs1 = Ok out
             else getVertexOutputList ptrs heap1 fs1 = Fault out_of_range);
    [|apply Hgen; reflexivity].
  induction ptrs as [|vtx ptrs IH]; intros fs1 Hmap Hlinks heap1;
    cbn [getVertexOutputList forallb]; [eauto|].
  pose proof (linkedTracks_subscript_any fs1 vtx) as Hsub.
  pose proof (vtxInfoMap_subscript_tracksAtVerticesMap fs1 vtx) as Hsubmap.
  pose proof (eq_refl (linkedTracks fs1 vtx)) as Hinfo. unfold linkedTracks at 1 in Hinfo.
  destruct (vtxInfoMap_subscript fs1 vtx) as [info fs2]. cbn [fst snd] in *.
  pose proof (tracksAtVertexOf_total (trackLinks info) vtx fs2) as Htot.
  rewrite Hsubmap, Hmap, Hinfo, Hlinks in Htot. fold (linksPresent fs vtx) in Htot.
  rewrite Hinfo, Hlinks.
  destruct (linksPresent fs vtx); cbn [andb].
  - destruct Htot as [tracks ->]. cbn [mbind Outcome_bind].
    specialize (IH fs2 ltac:(congruence) ltac:(intros v; rewrite Hsub; apply Hlinks)
                   (<[vtx := setTracksAtVertex tracks (deref heap1 vtx)]> heap1)).
    destruct (forallb (linksPresent fs) ptrs).
    + destruct IH as [rest ->]. cbn [mbind Outcome_bind]. eauto.
    + rewrite IH. reflexivity.
  - rewrite Htot. reflexivity.
Qed.

(** ** Seeding *)

(** X15: [doSeeding] hands back the last vertex the seed finder returned, its
    position untouched. With a constraint in the fit and
    [useSeedConstraint] off the constraint stays as it was and the seed
    takes its covariance; in every other case the seed is returned as the
    seed finder gave it and the constraint is moved to the seed position. *)
Theorem doSeeding_seed trackVector cc (opts : VertexingOptions) sfs removed
    seed cc' (sfs' : SeedFinderState) :
  doSeeding ext m_cfg trackVector cc opts sfs removed = Ok (seed, cc', sfs') ->
  exists seeds raw,
    last seeds = Some raw
    /\ seedFinder_find m_cfg trackVector (set_constraint cc opts)
         (match set_tracksToRemove ext with
          | Some assign => assign sfs removed
          | None => sfs
          end) = Ok (seeds, sfs')
    /\ fullPosition seed = fullPosition raw
    /\ if useConstraintInFit opts && negb (useSeedConstraint m_cfg)
       then cc' = cc /\ fullCovariance seed = fullCovariance cc
       else seed = raw /\ fullPosition cc' = fullPosition raw.
Proof.
  unfold doSeeding.
  destruct (seedFinder_find m_cfg _ _ _) as [[seeds sfs1]|e|x];
    cbn [mbind Outcome_bind]; try discriminate.
  destruct (last seeds) as [raw|] eqn:Hlast; [|discriminate].
  unfold setConstraintAfterSeeding. cbn [useConstraintInFit set_constraint].
  destruct (useConstraintInFit opts), (useSeedConstraint m_cfg); cbn [negb andb];
    intros [= <- <- <-]; exists seeds, raw; auto.
Qed.

(** ** The significance is not negative *)

(** X16: Whatever the estimator and [std::pow] return, the significance
    [getIPSignificance] returns is never below zero: it is 0 or a square
    root (which may be NaN). *)
Theorem getIPSignificance_not_negative track vtx (opts : VertexingOptions) s :
  getIPSignificance ext m_cfg track vtx opts = Ok s ->
  (s <? 0)%float = false.
Proof.
  unfold getIPSignificance.
  destruct (ipEstimator_getImpactParameters m_cfg _ _ _ _ _) as [ipas|e|x];
    cbn [mbind Outcome_bind]; try discriminate.
  assert (Hs : forall chi2Time,
             ((if gtb (sigmaD0 ipas) 0 && gtb (sigmaZ0 ipas) 0
               then PrimFloat.sqrt (std_pow ext (d0 ipas / sigmaD0 ipas) 2
                                    + std_pow ext (z0 ipas / sigmaZ0 ipas) 2
                                    + chi2Time)
               else 0) <? 0)%float = false).
  { intros c. destruct (gtb (sigmaD0 ipas) 0 && gtb (sigmaZ0 ipas) 0);
      [apply sqrt_not_negative|apply ltb_irrefl]. }
  destruct (useTime m_cfg); cbn [mbind Outcome_bind]; [|intros [= <-]; apply Hs].
  destruct (sigmaDeltaT ipas) as [sdt|]; cbn [optional_value mbind Outcome_bind];
    [|discriminate].
  destruct (gtb sdt 0); cbn [mbind Outcome_bind]; [|intros [= <-]; apply Hs].
  destruct (deltaT ipas) as [dt|]; cbn [optional_value mbind Outcome_bind];
    [|discriminate].
  intros [= <-]; apply Hs.
Qed.

End Coverage.

(** ** Instances *)

Lemma checkVertexAndCompatibleTracks_isGoodVertex_witness :
  linksPresent Example.threeLinked 7%N = true
  /\ exists nCompatibleTracks isGoodVertex fs',
       checkVertexAndCompatibleTracks Example.cfg 7%N [1%N; 2%N; 3%N]
         Example.threeLinked false
       = Ok (nCompatibleTracks, isGoodVertex, fs')
       /\ (isGoodVertex = true <->
           (addSingleTrackVertices Example.cfg = true /\ false = true
            /\ 1 <= countCompatibleInSeed Example.cfg Example.threeLinked 7%N
                      [1%N; 2%N; 3%N])
           \/ 2 <= countCompatibleInSeed Example.cfg Example.threeLinked 7%N
                     [1%N; 2%N; 3%N]).
Proof.
  split; [reflexivity|].
  apply (checkVertexAndCompatibleTracks_isGoodVertex Example.cfg 7%N
           [1%N; 2%N; 3%N] Example.threeLinked false).
  reflexivity.
Defined.

(** C4 as stated fails: three linked tracks are compatible and present in
    [seedTracks], and the count returned is 2. *)
Lemma checkVertexAndCompatibleTracks_count_counterexample :
  exists nCompatibleTracks isGoodVertex fs',
    checkVertexAndCompatibleTracks Example.cfg 7%N [1%N; 2%N; 3%N]
      Example.threeLinked false
    = Ok (nCompatibleTracks, isGoodVertex, fs')
    /\ nCompatibleTracks = 2
    /\ countCompatibleInSeed Example.cfg Example.threeLinked 7%N [1%N; 2%N; 3%N] = 3
    /\ nCompatibleTracks
       <> countCompatibleInSeed Example.cfg Example.threeLinked 7%N [1%N; 2%N; 3%N].
Proof.
  exists 2, true, Example.threeLinked.
  split; [vm_compute; reflexivity|]. split; [reflexivity|].
  split; [vm_compute; reflexivity|]. vm_compute. discriminate.
Qed.

Lemma checkVertexAndCompatibleTracks_nCompatibleTracks_witness :
  linksPresent Example.threeLinked 7%N = true
  /\ exists nCompatibleTracks isGoodVertex fs',
       checkVertexAndCompatibleTracks Example.cfg 7%N [1%N; 2%N; 3%N]
         Example.threeLinked false
       = Ok (nCompatibleTracks, isGoodVertex, fs')
       /\ nCompatibleTracks
          = Z.min (countCompatibleInSeed Example.cfg Example.threeLinked 7%N
                     [1%N; 2%N; 3%N])
                  (if addSingleTrackVertices Example.cfg && false then 1 else 2).
Proof.
  split; [reflexivity|].
  apply (checkVertexAndCompatibleTracks_nCompatibleTracks Example.cfg 7%N
           [1%N; 2%N; 3%N] Example.threeLinked false).
  reflexivity.
Defined.

Lemma keepNewVertex_contamination_witness :
  linksPresent Example.halfWeights 7%N = true
  /\ contamination_spec (linkedWeights Example.halfWeights 7%N) = 1%float
  /\ gtb (contamination_spec (linkedWeights Example.halfWeights 7%N))
         (maximumVertexContamination Example.cfg) = true
  /\ contaminationSums (linkedTracks Example.halfWeights 7%N) 7%N
       Example.halfWeights (0%float, 0%float)
     = Ok (sum_doubles (map (fun wi => wi * (1 - wi))%float
                            (linkedWeights Example.halfWeights 7%N)),
           sum_doubles (map (fun wi => wi * wi)%float
                            (linkedWeights Example.halfWeights 7%N)))
  /\ exists fs', keepNewVertex Example.ext Example.cfg 7%N ∅ [7%N]
                   Example.halfWeights = Ok (false, fs').
Proof.
  split; [reflexivity|]. split; [reflexivity|]. split; [reflexivity|].
  destruct (keepNewVertex_contamination Example.ext Example.cfg 7%N ∅ [7%N]
              Example.halfWeights eq_refl) as [Hsums Hreject].
  split; [exact Hsums|]. apply Hreject. reflexivity.
Defined.


(** The track of highest compatibility, track 2, is erased. *)
Example removeTrackIfIncompatible_highest :
  removeTrackIfIncompatible Example.ext 7%N Example.heapAtZero [1%N; 2%N; 3%N]
    Example.twoCompatibilities [] tt
  = Ok (true, [1%N; 3%N], [2%N], Example.twoCompatibilities).
Proof. vm_compute. reflexivity. Qed.

Lemma removeTrackIfIncompatible_spec_witness :
  linksPresent Example.twoCompatibilities 7%N = true
  /\ exists removed seedTracks' removedSeedTracks' fs',
       removeTrackIfIncompatible Example.ext 7%N Example.heapAtZero [1%N; 2%N; 3%N]
         Example.twoCompatibilities [] tt
       = Ok (removed, seedTracks', removedSeedTracks', fs')
       /\ ((exists i trk,
              removed = true /\ [1%N; 2%N; 3%N] !! i = Some trk
              /\ seedTracks' = delete i [1%N; 2%N; 3%N]
              /\ removedSeedTracks' = [] ++ [trk]
              /\ maximalCompatibility Example.twoCompatibilities 7%N [1%N; 2%N; 3%N] trk)
           \/ (exists i trk,
                 removed = true /\ [1%N; 2%N; 3%N] !! i = Some trk
                 /\ seedTracks' = delete i [1%N; 2%N; 3%N]
                 /\ removedSeedTracks' = [] ++ [trk]
                 /\ noPositiveCompatibility Example.twoCompatibilities 7%N [1%N; 2%N; 3%N]
                 /\ minimalZDistance Example.ext Example.heapAtZero 7%N tt
                      [1%N; 2%N; 3%N] trk)
           \/ (removed = false /\ seedTracks' = [1%N; 2%N; 3%N]
               /\ removedSeedTracks' = []
               /\ noPositiveCompatibility Example.twoCompatibilities 7%N [1%N; 2%N; 3%N]
               /\ noCloseTrack Example.ext Example.heapAtZero 7%N tt [1%N; 2%N; 3%N]))
       /\ ([1%N; 2%N; 3%N] = [] -> removed = false)
       /\ (removed = false ->
           (forall t, t ∈ [1%N; 2%N; 3%N] ->
              (zDistance Example.ext Example.heapAtZero 7%N tt t <? DBL_MAX)%float = true) ->
           [1%N; 2%N; 3%N] = []).
Proof.
  split; [reflexivity|].
  exact (removeTrackIfIncompatible_spec Example.ext 7%N Example.heapAtZero
           [1%N; 2%N; 3%N] Example.twoCompatibilities [] tt eq_refl).
Defined.

(** C6 as stated fails: with a seed track left and no track removable by
    either rule (the distance to the vertex is not below [DBL_MAX]), the
    function returns false although [seedTracks] is not empty. *)
Lemma removeTrackIfIncompatible_nonempty_counterexample :
  exists seedTracks' removedSeedTracks' fs',
    removeTrackIfIncompatible Example.ext 7%N Example.heapWithNaN [1%N]
      Example.noLinks [] tt
    = Ok (false, seedTracks', removedSeedTracks', fs')
    /\ seedTracks' = [1%N]
    /\ [1%N] <> ([] : list InputTrack).
Proof.
  exists [1%N], [], (mkFitterState [] {[ 7%N := VertexInfo_default ]} [] ∅ tt).
  split; [vm_compute; reflexivity|]. split; [reflexivity|discriminate].
Qed.

(** After the vertex of the tracks 5 and 6 is accepted, the seed finder
    proposes the z of the constraint: the loop stops and the one accepted
    vertex is what [find] returns. *)
Lemma find_stops_without_seed_witness :
  st_allVerticesPtr Example.afterFirstVertex = [1%N]
  /\ st_seedTracks Example.afterFirstVertex = [20%N]
  /\ find_loop Example.ext Example.cfg 1 [5%N; 6%N; 20%N] (Example.optionsAt 20)
       Example.afterFirstVertex
     = Ok (set_seedFinderState tt Example.afterFirstVertex)
  /\ (st' ← find_loop Example.ext Example.cfg 1 [5%N; 6%N; 20%N] (Example.optionsAt 20)
              Example.afterFirstVertex;
      outputOf st')
     = outputOf Example.afterFirstVertex.
Proof.
  split; [vm_compute; reflexivity|]. split; [vm_compute; reflexivity|].
  apply (find_stops_without_seed Example.ext Example.cfg 0 [5%N; 6%N; 20%N]
           (Example.optionsAt 20) Example.afterFirstVertex
           [Example.vertexAt 20] tt (Example.vertexAt 20));
    vm_compute; reflexivity.
Defined.

Example find_returns_accepted_vertex :
  map position_z
      (Example.vertices_of
         (find Example.ext Example.cfg [5%N; 6%N; 20%N] (Example.optionsAt 20)))
  = [5%float].
Proof. vm_compute. reflexivity. Qed.

(** One iteration allowed against a hundred: one vertex against two. *)
Lemma find_maxIterations_monotone_witness :
  find Example.ext (with_maxIterations 1 Example.cfg) Example.fiveTracks Example.options
  = Ok (Example.vertices_of
          (find Example.ext (with_maxIterations 1 Example.cfg) Example.fiveTracks
             Example.options))
  /\ find Example.ext Example.cfg Example.fiveTracks Example.options
     = Ok (Example.vertices_of
             (find Example.ext Example.cfg Example.fiveTracks Example.options))
  /\ (length (Example.vertices_of
                (find Example.ext (with_maxIterations 1 Example.cfg) Example.fiveTracks
                   Example.options))
      <= length (Example.vertices_of
                   (find Example.ext Example.cfg Example.fiveTracks Example.options)))%nat.
Proof.
  split; [vm_compute; reflexivity|]. split; [vm_compute; reflexivity|].
  apply (find_maxIterations_monotone Example.ext
           (with_maxIterations 1 Example.cfg) Example.cfg
           Example.fiveTracks Example.options).
  - reflexivity.
  - cbn. lia.
  - vm_compute; reflexivity.
  - vm_compute; reflexivity.
Defined.

(** C9 as stated fails: the two configurations differ only in
    [maxIterations] and the collaborators are the same functions. With one
    iteration allowed [find] returns the vertex of the tracks 1, 2 and 3;
    with a hundred the seed finder is called a second time and fails, so
    [find] returns the error and no vertex at all, the accepted vertex
    included. *)
Lemma find_maxIterations_error_counterexample :
  with_maxIterations (maxIterations Example.cfgSecondSeedFails)
    (with_maxIterations 1 Example.cfgSecondSeedFails)
  = Example.cfgSecondSeedFails
  /\ maxIterations (with_maxIterations 1 Example.cfgSecondSeedFails)
     <= maxIterations Example.cfgSecondSeedFails
  /\ (exists out1,
        find Example.ext (with_maxIterations 1 Example.cfgSecondSeedFails)
          Example.fiveTracks Example.options = Ok out1
        /\ length out1 = 1%nat)
  /\ find Example.ext Example.cfgSecondSeedFails Example.fiveTracks Example.options
     = Failure (CollaboratorError 7)
  /\ ~ (exists out1 out2,
          find Example.ext (with_maxIterations 1 Example.cfgSecondSeedFails)
            Example.fiveTracks Example.options = Ok out1
          /\ find Example.ext Example.cfgSecondSeedFails Example.fiveTracks
               Example.options = Ok out2
          /\ (length out1 <= length out2)%nat).
Proof.
  assert (Hfail : find Example.ext Example.cfgSecondSeedFails Example.fiveTracks
                    Example.options = Failure (CollaboratorError 7))
    by (vm_compute; reflexivity).
  split; [reflexivity|]. split; [cbn; lia|].
  split.
  - exists (Example.vertices_of
              (find Example.ext (with_maxIterations 1 Example.cfgSecondSeedFails)
                 Example.fiveTracks Example.options)).
    split; vm_compute; reflexivity.
  - split; [exact Hfail|]. intros (out1 & out2 & _ & H2 & _).
    rewrite Hfail in H2. discriminate.
Qed.

Example find_one_and_two_vertices :
  length (Example.vertices_of
            (find Example.ext (with_maxIterations 1 Example.cfg) Example.fiveTracks
               Example.options)) = 1%nat
  /\ length (Example.vertices_of
               (find Example.ext Example.cfg Example.fiveTracks Example.options)) = 2%nat.
Proof. split; vm_compute; reflexivity. Qed.

(** Five tracks: the loop is over after two full iterations. *)
Lemma iteration_erases_seed_track_witness :
  find_loop Example.ext Example.cfg 100 Example.fiveTracks Example.options
    (initialState Example.ext Example.fiveTracks Example.options)
  = Ok Example.finalState
  /\ st_iteration Example.finalState
     <= st_iteration (initialState Example.ext Example.fiveTracks Example.options)
        + Z.of_nat (length (st_seedTracks
                              (initialState Example.ext Example.fiveTracks
                                 Example.options))).
Proof.
  split; [vm_compute; reflexivity|].
  apply (proj1 (proj2 (proj2 (proj2 (proj2
           (iteration_erases_seed_track Example.ext Example.cfg)))))
         100%nat Example.fiveTracks Example.options).
  vm_compute; reflexivity.
Defined.

(** A candidate a quarter of a unit from an accepted vertex, with unit
    variances, is merged: the significance is [(1/4) / √2 < 3]. Compared
    with itself alone it is not. *)
Example isMergedVertex_close :
  isMergedVertex Example.ext Example.cfg 7%N Example.closeVertices [5%N; 7%N] = true
  /\ isMergedVertex Example.ext Example.cfg 7%N Example.closeVertices [7%N] = false.
Proof. split; vm_compute; reflexivity. Qed.

(** *** Instances of the further properties *)

(** The three linked tracks are all compatible and in [seedTracks]: all
    three move. *)
Lemma removeCompatibleTracksFromSeedTracks_moves_witness :
  removeCompatibleTracksFromSeedTracks Example.cfg 7%N [1%N; 2%N; 3%N; 9%N]
    Example.threeLinked []
  = Ok ([9%N], [1%N; 2%N; 3%N], Example.threeLinked)
  /\ exists moved,
       [1%N; 2%N; 3%N] = [] ++ moved
       /\ [1%N; 2%N; 3%N; 9%N] ≡ₚ [9%N] ++ moved
       /\ [9%N] `sublist_of` [1%N; 2%N; 3%N; 9%N]
       /\ forall t, t ∈ moved -> t ∈ linkedTracks Example.threeLinked 7%N.
Proof.
  split; [vm_compute; reflexivity|].
  apply (removeCompatibleTracksFromSeedTracks_moves Example.cfg 7%N
           [1%N; 2%N; 3%N; 9%N] Example.threeLinked [] [9%N] [1%N; 2%N; 3%N]
           Example.threeLinked).
  vm_compute; reflexivity.
Defined.

Lemma iteration_moves_tracks_witness :
  find_iteration Example.ext Example.cfg Example.fiveTracks Example.options
    (initialState Example.ext Example.fiveTracks Example.options)
  = Ok (Continue Example.afterOneIteration)
  /\ st_seedTracks Example.afterOneIteration = [9%N; 10%N]
  /\ st_removedSeedTracks Example.afterOneIteration = [1%N; 2%N; 3%N]
  /\ st_seedTracks (initialState Example.ext Example.fiveTracks Example.options)
     ≡ₚ st_seedTracks Example.afterOneIteration
        ++ st_removedSeedTracks Example.afterOneIteration
  /\ st_seedTracks Example.afterOneIteration
     `sublist_of` st_seedTracks (initialState Example.ext Example.fiveTracks
                                   Example.options).
Proof.
  split; [vm_compute; reflexivity|]. split; [vm_compute; reflexivity|].
  split; [vm_compute; reflexivity|].
  apply (iteration_moves_tracks Example.ext Example.cfg Example.fiveTracks
           Example.options).
  vm_compute; reflexivity.
Defined.

Lemma find_loop_seedTracks_sublist_witness :
  find_loop Example.ext Example.cfg 100 Example.fiveTracks Example.options
    (initialState Example.ext Example.fiveTracks Example.options)
  = Ok Example.finalState
  /\ st_seedTracks Example.finalState
     `sublist_of` st_seedTracks (initialState Example.ext Example.fiveTracks
                                   Example.options)
  /\ (NoDup (st_seedTracks (initialState Example.ext Example.fiveTracks
                              Example.options)) ->
      NoDup (st_seedTracks Example.finalState)).
Proof.
  split; [vm_compute; reflexivity|].
  apply (find_loop_seedTracks_sublist Example.ext Example.cfg 100 Example.fiveTracks
           Example.options).
  vm_compute; reflexivity.
Defined.

Lemma find_loop_vectors_agree_witness :
  find_loop Example.ext Example.cfg 100 Example.fiveTracks Example.options
    (initialState Example.ext Example.fiveTracks Example.options)
  = Ok Example.finalState
  /\ length (st_allVerticesPtr Example.finalState) = 2%nat
  /\ st_allVertices Example.finalState = st_allVerticesPtr Example.finalState.
Proof.
  split; [vm_compute; reflexivity|]. split; [vm_compute; reflexivity|].
  apply (find_loop_vectors_agree Example.ext Example.cfg 100 Example.fiveTracks
           Example.options
           (initialState Example.ext Example.fiveTracks Example.options)).
  - reflexivity.
  - vm_compute; reflexivity.
Defined.

Lemma addCompatibleTracksToVertex_links_witness :
  addCompatibleTracksToVertex Example.ext Example.cfg [1%N; 2%N; 3%N; 9%N] 7%N
    Example.heapAtZero Example.noLinks Example.options = Ok Example.attached
  /\ linkedTracks Example.attached 7%N = [1%N; 2%N; 3%N]
  /\ linkedTracks Example.attached 7%N
     = linkedTracks Example.noLinks 7%N
       ++ List.filter (attaches Example.ext Example.cfg Example.heapAtZero 7%N
                         Example.options) [1%N; 2%N; 3%N; 9%N].
Proof.
  split; [vm_compute; reflexivity|]. split; [vm_compute; reflexivity|].
  apply (addCompatibleTracksToVertex_links Example.ext Example.cfg).
  vm_compute; reflexivity.
Defined.

Lemma addCompatibleTracksToVertex_records_witness :
  addCompatibleTracksToVertex Example.ext Example.cfg [1%N; 2%N; 3%N; 9%N] 7%N
    Example.heapAtZero Example.twoCompatibilities Example.options
  = Ok (Example.value_of Example.noLinks
          (addCompatibleTracksToVertex Example.ext Example.cfg [1%N; 2%N; 3%N; 9%N] 7%N
             Example.heapAtZero Example.twoCompatibilities Example.options))
  /\ forall k t,
       tracksAtVerticesMap Example.twoCompatibilities !! k = Some t ->
       tracksAtVerticesMap
         (Example.value_of Example.noLinks
            (addCompatibleTracksToVertex Example.ext Example.cfg [1%N; 2%N; 3%N; 9%N]
               7%N Example.heapAtZero Example.twoCompatibilities Example.options))
       !! k = Some t.
Proof.
  split; [vm_compute; reflexivity|].
  apply (addCompatibleTracksToVertex_records Example.ext Example.cfg
           [1%N; 2%N; 3%N; 9%N] 7%N Example.heapAtZero Example.twoCompatibilities
           _ Example.options).
  vm_compute; reflexivity.
Defined.

(** The candidate at [z = 100] has no track within reach; it is put at
    the z of track 3, where the tracks 1, 2 and 3 attach. *)
Lemma canRecoverFromNoCompatibleTracks_relocates_witness :
  canRecoverFromNoCompatibleTracks Example.ext Example.cfg [1%N; 2%N; 3%N; 9%N]
    [1%N; 2%N; 3%N] 7%N Example.heapFarAway (Example.vertexAt 0) Example.noLinks
    Example.options
  = Ok (true, Example.recovered.1.2, Example.recovered.2)
  /\ linkedTracks Example.noLinks 7%N = []
  /\ linkedTracks Example.recovered.1.2 7%N = [1%N; 2%N; 3%N]
  /\ ((noCloseTrack Example.ext Example.heapFarAway 7%N tt [1%N; 2%N; 3%N]
       /\ true = false /\ Example.recovered.2 = Example.heapFarAway)
      \/ (exists trk,
            minimalZDistance Example.ext Example.heapFarAway 7%N tt [1%N; 2%N; 3%N] trk
            /\ Example.recovered.2 = relocated Example.ext Example.heapFarAway 7%N tt trk
            /\ linkedTracks Example.recovered.1.2 7%N
               = List.filter (attaches Example.ext Example.cfg Example.recovered.2 7%N
                                Example.options) [1%N; 2%N; 3%N; 9%N]
            /\ (true = true <-> linkedTracks Example.recovered.1.2 7%N <> []))).
Proof.
  split; [vm_compute; reflexivity|]. split; [reflexivity|].
  split; [vm_compute; reflexivity|].
  apply (canRecoverFromNoCompatibleTracks_relocates Example.ext Example.cfg
           [1%N; 2%N; 3%N; 9%N] [1%N; 2%N; 3%N] 7%N Example.heapFarAway
           (Example.vertexAt 0) Example.noLinks Example.options true
           Example.recovered.1.2 Example.recovered.2).
  - vm_compute; reflexivity.
  - reflexivity.
Defined.

Lemma canPrepareVertexForFit_prepares_witness :
  canPrepareVertexForFit Example.ext Example.cfg [1%N; 2%N; 3%N; 9%N]
    [1%N; 2%N; 3%N; 9%N] 7%N Example.heapAtZero (Example.vertexAt 0) Example.noLinks
    Example.options
  = Ok (true, Example.prepared.1.2, Example.prepared.2)
  /\ linksPresent Example.prepared.1.2 7%N = true
  /\ linkedTracks Example.prepared.1.2 7%N
     = List.filter (attaches Example.ext Example.cfg Example.prepared.2 7%N
                      Example.options) [1%N; 2%N; 3%N; 9%N]
  /\ (true = true <-> linkedTracks Example.prepared.1.2 7%N <> [])
  /\ (exists info,
        vtxInfoMap Example.prepared.1.2 !! 7%N = Some info
        /\ info_constraint info = Example.vertexAt 0
        /\ seedPosition info = fullPosition (deref Example.prepared.2 7%N))
  /\ (forall v, v <> 7%N ->
        vtxInfoMap Example.prepared.1.2 !! v = vtxInfoMap Example.noLinks !! v)
  /\ (forall k t, tracksAtVerticesMap Example.noLinks !! k = Some t ->
        tracksAtVerticesMap Example.prepared.1.2 !! k = Some t)
  /\ (forall p, p <> 7%N -> Example.prepared.2 !! p = Example.heapAtZero !! p).
Proof.
  split; [vm_compute; reflexivity|].
  apply (canPrepareVertexForFit_prepares Example.ext Example.cfg [1%N; 2%N; 3%N; 9%N]
           [1%N; 2%N; 3%N; 9%N] 7%N Example.heapAtZero (Example.vertexAt 0)
           Example.noLinks Example.options true).
  vm_compute; reflexivity.
Defined.

(** Five tracks, a hundred iterations allowed: two vertices. *)
Lemma find_vertex_count_witness :
  find Example.ext Example.cfg Example.fiveTracks Example.options
  = Ok (Example.vertices_of
          (find Example.ext Example.cfg Example.fiveTracks Example.options))
  /\ Z.of_nat (length (Example.vertices_of
                         (find Example.ext Example.cfg Example.fiveTracks
                            Example.options)))
     <= Z.max 0 (maxIterations Example.cfg)
  /\ (length (Example.vertices_of
                (find Example.ext Example.cfg Example.fiveTracks Example.options))
      <= length Example.fiveTracks)%nat.
Proof.
  split; [vm_compute; reflexivity|].
  apply (find_vertex_count Example.ext Example.cfg Example.fiveTracks Example.options).
  vm_compute; reflexivity.
Defined.

Lemma find_without_iterations_witness :
  maxIterations (with_maxIterations 0 Example.cfg) <= 0
  /\ Example.fiveTracks <> []
  /\ find Example.ext (with_maxIterations 0 Example.cfg) Example.fiveTracks
       Example.options = Ok [].
Proof.
  assert (H0 : maxIterations (with_maxIterations 0 Example.cfg) <= 0) by (cbn; lia).
  assert (Hne : Example.fiveTracks <> []) by (vm_compute; discriminate).
  split; [exact H0|]. split; [exact Hne|].
  exact (find_without_iterations Example.ext (with_maxIterations 0 Example.cfg)
           Example.fiveTracks Example.options H0 Hne).
Defined.

Lemma find_loop_seedFinder_failure_witness :
  loopCondition Example.cfgSeedFinderFails
    (initialState Example.ext Example.fiveTracks Example.options) = true
  /\ find_loop Example.ext Example.cfgSeedFinderFails 1 Example.fiveTracks
       Example.options (initialState Example.ext Example.fiveTracks Example.options)
     = Failure (CollaboratorError 1).
Proof.
  split; [reflexivity|].
  exact (find_loop_seedFinder_failure Example.ext Example.cfgSeedFinderFails 0
           Example.fiveTracks Example.options
           (initialState Example.ext Example.fiveTracks Example.options) eq_refl).
Defined.

(** The vertices at [z = 1/4] and [z = 0] are merged, whichever of the
    two is the candidate. *)
Lemma isMergedVertex_symmetric_in_z_witness :
  do3dSplitting Example.cfg = false
  /\ isMergedVertex Example.ext Example.cfg 7%N Example.closeVertices [5%N] = true
  /\ isMergedVertex Example.ext Example.cfg 7%N Example.closeVertices [5%N]
     = isMergedVertex Example.ext Example.cfg 5%N Example.closeVertices [7%N].
Proof.
  split; [reflexivity|]. split; [vm_compute; reflexivity|].
  apply (isMergedVertex_symmetric_in_z Example.ext Example.cfg 7%N 5%N
           Example.closeVertices).
  reflexivity.
Defined.

Lemma getVertexOutputList_contents_witness :
  getVertexOutputList [7%N] Example.heapAtZero Example.threeLinked
  = Ok (Example.vertices_of
          (getVertexOutputList [7%N] Example.heapAtZero Example.threeLinked))
  /\ map (fun v => length (tracksAtVertex v))
         (Example.vertices_of
            (getVertexOutputList [7%N] Example.heapAtZero Example.threeLinked))
     = [3%nat]
  /\ Forall2 (fun vtx outVtx =>
                fullPosition outVtx = fullPosition (deref Example.heapAtZero vtx)
                /\ fullCovariance outVtx = fullCovariance (deref Example.heapAtZero vtx)
                /\ fitQuality outVtx = fitQuality (deref Example.heapAtZero vtx)
                /\ map Some (tracksAtVertex outVtx)
                   = map (fun trk => tracksAtVerticesMap Example.threeLinked !! (trk, vtx))
                         (linkedTracks Example.threeLinked vtx))
             [7%N]
             (Example.vertices_of
                (getVertexOutputList [7%N] Example.heapAtZero Example.threeLinked)).
Proof.
  split; [vm_compute; reflexivity|]. split; [vm_compute; reflexivity|].
  apply (getVertexOutputList_contents [7%N] Example.heapAtZero Example.threeLinked).
  vm_compute; reflexivity.
Defined.

(** A linked track without a record: the list cannot be built. *)
Example getVertexOutputList_missing_record :
  getVertexOutputList [7%N] Example.heapAtZero
    (set_tracksAtVerticesMap ∅ Example.threeLinked)
  = Fault out_of_range.
Proof. vm_compute. reflexivity. Qed.

(** The seed finder proposes the z of the first track; the constraint at
    [z = 20] is moved there, as [useSeedConstraint] is set. *)
Lemma doSeeding_seed_witness :
  doSeeding Example.ext Example.cfg [5%N; 6%N] (Example.vertexAt 20)
    (Example.optionsAt 20) tt []
  = Ok (Example.vertexAt 5, Example.vertexAt 5, tt)
  /\ exists seeds raw,
       last seeds = Some raw
       /\ seedFinder_find Example.cfg [5%N; 6%N]
            (set_constraint (Example.vertexAt 20) (Example.optionsAt 20))
            (match set_tracksToRemove Example.ext with
             | Some assign => assign tt []
             | None => tt
             end) = Ok (seeds, tt)
       /\ fullPosition (Example.vertexAt 5) = fullPosition raw
       /\ if useConstraintInFit (Example.optionsAt 20)
             && negb (useSeedConstraint Example.cfg)
          then Example.vertexAt 5 = Example.vertexAt 20
               /\ fullCovariance (Example.vertexAt 5)
                  = fullCovariance (Example.vertexAt 20)
          else Example.vertexAt 5 = raw
               /\ fullPosition (Example.vertexAt 5) = fullPosition raw.
Proof.
  split; [vm_compute; reflexivity|].
  apply (doSeeding_seed Example.ext Example.cfg [5%N; 6%N] (Example.vertexAt 20)
           (Example.optionsAt 20) tt [] (Example.vertexAt 5) (Example.vertexAt 5) tt).
  vm_compute; reflexivity.
Defined.

Lemma getIPSignificance_not_negative_witness :
  getIPSignificance Example.ext (Example.cfgWith true) 3%N (Example.vertexAt 1)
    Example.options = Ok (PrimFloat.sqrt 13)
  /\ (PrimFloat.sqrt 13 <? 0)%float = false.
Proof.
  split; [vm_compute; reflexivity|].
  apply (getIPSignificance_not_negative Example.ext (Example.cfgWith true) 3%N
           (Example.vertexAt 1) Example.options).
  vm_compute; reflexivity.
Defined.
